(** * Lexical analyzer of the code analyzer backend

    A shallow embedding of [lexical_analyzer.py]: the token catalogue
    ([LexemeType], the static and dynamic definition tables), the cursor
    operations ([in_bounds], [skip_spaces]), the two matchers and the
    [parse] loop of [LexicalAnalyzer], followed by the properties of the
    token stream they produce.

    Source text is a list of 8-bit characters (code points 0 to 255 of a
    Python [str]); offsets and lengths are natural numbers, since the
    cursor starts at 0 and is only ever added to. *)

From Stdlib Require Import String Ascii List Bool Arith ZArith Lia Sorted.
From Stdlib Require Import DecimalString.
Import ListNotations.

Definition str := list ascii.

(** A Python string literal. *)
Definition lit (s : string) : str := list_ascii_of_string s.

Definition chr (n : nat) : ascii := ascii_of_nat n.

Definition str_eqb (x y : str) : bool :=
  if list_eq_dec ascii_dec x y then true else false.

(** [s[i:j]] for non-negative [i] and [j]. *)
Definition slice (s : str) (i j : nat) : str := firstn (j - i) (skipn i s).

(** [s[i]] inside the bounds; the analyzer never indexes outside them. *)
Definition char_at (s : str) (i : nat) : ascii := nth i s (chr 0).

(** ** Library functions used by the analyzer *)

Fixpoint find_scan (s sub : str) (i n : nat) : Z :=
  match n with
  | 0 => (-1)%Z
  | S n' =>
      if str_eqb (slice s i (i + length sub)) sub then Z.of_nat i
      else find_scan s sub (S i) n'
  end.

(** [s.find(sub, start, end)]: the lowest index in [s[start:end]] where
    [sub] occurs, or -1. *)
Definition find (s sub : str) (start end_ : nat) : Z :=
  let e := Nat.min end_ (length s) in
  if start + length sub <=? e
  then find_scan s sub start (S (e - (start + length sub)))
  else (-1)%Z.

Definition between (lo hi n : nat) : bool := (lo <=? n) && (n <=? hi).

(** [c.isalnum()] on code points 0 to 255: the ASCII letters and digits,
    and the Latin-1 letters and numeric characters. *)
Definition isalnum (c : ascii) : bool :=
  let n := nat_of_ascii c in
  between 48 57 n || between 65 90 n || between 97 122 n
  || (n =? 170) || (n =? 178) || (n =? 179) || (n =? 181) || (n =? 185)
  || (n =? 186) || between 188 190 n
  || between 192 214 n || between 216 246 n || between 248 255 n.

(** ** Regular expressions ([re]) *)

Inductive class_item : Type :=
| Range (lo hi : ascii)
| Single (c : ascii).

Inductive regex : Type :=
| Chr (c : ascii)
| Cls (items : list class_item)
| Cat (r1 r2 : regex)
| Alt (r1 r2 : regex)
| Star (r : regex).

Definition in_item (c : ascii) (it : class_item) : bool :=
  match it with
  | Range lo hi => between (nat_of_ascii lo) (nat_of_ascii hi) (nat_of_ascii c)
  | Single x => Ascii.eqb c x
  end.

Definition in_class (items : list class_item) (c : ascii) : bool :=
  existsb (in_item c) items.

(** The loop of a greedy star: match the body once more, as long as it
    consumes text, and fall back to the continuation [k]. *)
Fixpoint star_loop (body : str -> (str -> option str) -> option str)
    (k : str -> option str) (n : nat) (s : str) : option str :=
  match n with
  | 0 => k s
  | S n' =>
      match body s (fun s' => if length s' <? length s
                              then star_loop body k n' s' else None)
      with
      | Some rest => Some rest
      | None => k s
      end
  end.

(** Backtracking match of [r] at the head of [s]: alternatives are tried
    left to right and a star is greedy. [k] receives the text that is left. *)
Fixpoint match_here (r : regex) (s : str) (k : str -> option str) : option str :=
  match r with
  | Chr c =>
      match s with
      | x :: s' => if Ascii.eqb x c then k s' else None
      | [] => None
      end
  | Cls items =>
      match s with
      | x :: s' => if in_class items x then k s' else None
      | [] => None
      end
  | Cat r1 r2 => match_here r1 s (fun s' => match_here r2 s' k)
  | Alt r1 r2 =>
      match match_here r1 s k with
      | Some rest => Some rest
      | None => match_here r2 s k
      end
  | Star r1 => star_loop (match_here r1) k (length s) s
  end.

Fixpoint search_at (r : regex) (s : str) (pos : nat) : option (nat * nat) :=
  match match_here r s Some with
  | Some rest => Some (pos, pos + (length s - length rest))
  | None =>
      match s with
      | [] => None
      | _ :: s' => search_at r s' (S pos)
      end
  end.

(** [pattern.search(source, pos)]: the span of the leftmost match that
    starts at or after [pos]. *)
Definition search (r : regex) (source : str) (pos : nat) : option (nat * nat) :=
  if pos <=? length source then search_at r (skipn pos source) pos else None.

(** ** The token catalogue *)

Inductive LexemeType : Type :=
(* Keywords *)
| Dim | Print | Const | Option | Explicit | Set_ | If | Else | Sub | End
| For | Each | Next
(* Arithmetical operators *)
| Plus | Minus | Multiply | Exponent | Divide | IntegerDivide | Mod
(* Logical operators *)
| Not | And | Or | Xor | AndAlso | OrElse
(* Other operators *)
| Assign | Semicolon | DoubleQuote | Dot | Comma | OpeningBracket
| ClosingBracket
(* Dynamic lexemes *)
| Identifier | Number.

(** The [value] of an enumeration member. *)
Definition value (t : LexemeType) : str :=
  match t with
  | Dim => lit "Dim"
  | Print => lit "Print"
  | Const => lit "Const"
  | Option => lit "Option"
  | Explicit => lit "Explicit"
  | Set_ => lit "Set"
  | If => lit "If"
  | Else => lit "Else"
  | Sub => lit "Sub"
  | End => lit "End"
  | For => lit "For"
  | Each => lit "Each"
  | Next => lit "Next"
  | Plus => lit "+"
  | Minus => lit "-"
  | Multiply => lit "*"
  | Exponent => lit "^"
  | Divide => lit "/"
  | IntegerDivide => [chr 92]
  | Mod => lit "Mod"
  | Not => lit "Not"
  | And => lit "And"
  | Or => lit "Or"
  | Xor => lit "Xor"
  | AndAlso => lit "AndAlso"
  | OrElse => lit "OrElse"
  | Assign => lit "="
  | Semicolon => lit ";"
  | DoubleQuote => [chr 34]
  | Dot => lit "."
  | Comma => lit ","
  | OpeningBracket => lit "("
  | ClosingBracket => lit ")"
  | Identifier => lit "[a-zA-Z_][a-zA-Z0-9_]*"
  | Number => lit "(0|[1-9][0-9]*" ++ lit ")"
  end.

Definition ch (s : string) : ascii :=
  match s with
  | String c _ => c
  | EmptyString => chr 0
  end.

(** The compiled pattern of [Identifier]: a letter or underscore, then
    any number of letters, digits and underscores. *)
Definition identifier_pattern : regex :=
  Cat (Cls [Range (ch "a") (ch "z"); Range (ch "A") (ch "Z"); Single (ch "_")])
      (Star (Cls [Range (ch "a") (ch "z"); Range (ch "A") (ch "Z");
                  Range (ch "0") (ch "9"); Single (ch "_")])).

(** The compiled pattern of [Number]: a group with two alternatives, the
    digit 0, or a digit from 1 to 9 followed by any number of digits. *)
Definition number_pattern : regex :=
  Alt (Chr (ch "0"))
      (Cat (Cls [Range (ch "1") (ch "9")])
           (Star (Cls [Range (ch "0") (ch "9")]))).

(** [re.compile(lexeme_type.value)]. Only the two dynamic members are ever
    compiled, by [DynamicLexemeDefinition]; for the others the result is a
    pattern that matches nothing. *)
Definition compile (t : LexemeType) : regex :=
  match t with
  | Identifier => identifier_pattern
  | Number => number_pattern
  | _ => Cls []
  end.

(** [Lexeme]: the four attributes set by [__init__]. *)
Module Lexeme.
Record t : Type := mk {
  lexeme_type : LexemeType;
  lexeme_value : str;
  offset : nat;
  length : nat
}.
End Lexeme.

(** [StaticLexemeDefinition]: the properties [lexeme_type] and
    [representation] of [LexemeDefinition], and [is_keyword]. *)
Record StaticLexemeDefinition : Type := static_def {
  static_type : LexemeType;
  static_representation : str;
  is_keyword : bool
}.

(** [DynamicLexemeDefinition]: here [representation] is the compiled
    pattern. *)
Record DynamicLexemeDefinition : Type := dynamic_def {
  dynamic_type : LexemeType;
  dynamic_representation : regex
}.

(** The two constructors, as the tables call them. *)
Definition StaticLexemeDefinition_ (t : LexemeType) (kw : bool) :=
  static_def t (value t) kw.

Definition DynamicLexemeDefinition_ (t : LexemeType) :=
  dynamic_def t (compile t).

Definition static_lexeme_definitions : list StaticLexemeDefinition :=
  [ (* Keywords *)
    StaticLexemeDefinition_ Dim true;
    StaticLexemeDefinition_ Print true;
    StaticLexemeDefinition_ Const true;
    StaticLexemeDefinition_ Option true;
    StaticLexemeDefinition_ Explicit true;
    StaticLexemeDefinition_ Set_ true;
    StaticLexemeDefinition_ If true;
    StaticLexemeDefinition_ Else true;
    StaticLexemeDefinition_ For true;
    StaticLexemeDefinition_ Each true;
    StaticLexemeDefinition_ End true;
    (* Arithmetical operators *)
    StaticLexemeDefinition_ Plus false;
    StaticLexemeDefinition_ Minus false;
    StaticLexemeDefinition_ Multiply false;
    StaticLexemeDefinition_ Exponent false;
    StaticLexemeDefinition_ Divide false;
    StaticLexemeDefinition_ IntegerDivide false;
    StaticLexemeDefinition_ Mod false;
    (* Logical operators *)
    StaticLexemeDefinition_ Not false;
    StaticLexemeDefinition_ And false;
    StaticLexemeDefinition_ Or false;
    StaticLexemeDefinition_ Xor false;
    StaticLexemeDefinition_ AndAlso false;
    StaticLexemeDefinition_ OrElse false;
    (* Other operators *)
    StaticLexemeDefinition_ Assign false;
    StaticLexemeDefinition_ Semicolon false;
    StaticLexemeDefinition_ DoubleQuote false;
    StaticLexemeDefinition_ Dot false;
    StaticLexemeDefinition_ Comma false;
    StaticLexemeDefinition_ OpeningBracket false;
    StaticLexemeDefinition_ ClosingBracket false ].

Definition dynamic_lexeme_definitions : list DynamicLexemeDefinition :=
  [ DynamicLexemeDefinition_ Identifier;
    DynamicLexemeDefinition_ Number ].

(** ** The analyzer *)

(** [UnknownLexemeException(pos)]; its message is a function of [pos]. *)
Record UnknownLexemeException : Type := unknown_lexeme { pos : nat }.

Module LexicalAnalyzer.

Record t : Type := mk {
  source : str;
  offset : nat;
  lexemes : list Lexeme.t
}.

Definition space_chars : list ascii := [chr 32; chr 10; chr 13; chr 9].

Definition init (source : str) : t := mk source 0 [].

Definition set_offset (a : t) (o : nat) : t := mk (source a) o (lexemes a).

Definition append (a : t) (l : Lexeme.t) : t :=
  mk (source a) (offset a) (lexemes a ++ [l]).

Definition in_bounds (a : t) : bool := offset a <? length (source a).

Definition is_space (c : ascii) : bool := existsb (Ascii.eqb c) space_chars.

(** The loop of [skip_spaces], over the text from the cursor on. *)
Fixpoint skip_spaces_from (rest : str) (off : nat) : nat :=
  match rest with
  | c :: rest' => if is_space c then skip_spaces_from rest' (S off) else off
  | [] => off
  end.

Definition skip_spaces (a : t) : t :=
  set_offset a (skip_spaces_from (skipn (offset a) (source a)) (offset a)).

(** The [for] loop of [process_static_lexeme] over the definitions left. *)
Fixpoint static_loop (defs : list StaticLexemeDefinition) (a : t)
  : option Lexeme.t * t :=
  match defs with
  | [] => (None, a)
  | lexeme_def :: defs' =>
      let rep := static_representation lexeme_def in
      let length := List.length rep in
      if (List.length (source a) <? offset a + length)
         || (find (source a) rep (offset a) (offset a + length) =? -1)%Z
      then static_loop defs' a
      else if (offset a + length <? List.length (source a))
              && is_keyword lexeme_def
              && (let next_char := char_at (source a) (offset a + length) in
                  Ascii.eqb next_char (ch "_") || isalnum next_char)
      then static_loop defs' a
      else
        let a' := set_offset a (offset a + length) in
        (Some (Lexeme.mk (static_type lexeme_def) rep (offset a') length), a')
  end.

Definition process_static_lexeme (a : t) : option Lexeme.t * t :=
  static_loop static_lexeme_definitions a.

(** The [for] loop of [process_dynamic_lexeme] over the definitions left. *)
Fixpoint dynamic_loop (defs : list DynamicLexemeDefinition) (a : t)
  : option Lexeme.t * t :=
  match defs with
  | [] => (None, a)
  | lexeme_def :: defs' =>
      match search (dynamic_representation lexeme_def) (source a) (offset a) with
      | None => dynamic_loop defs' a
      | Some span =>
          let match_length := snd span - fst span in
          let a' := set_offset a (offset a + match_length) in
          (Some (Lexeme.mk (dynamic_type lexeme_def)
                   (slice (source a) (fst span) (snd span))
                   (offset a') match_length), a')
      end
  end.

Definition process_dynamic_lexeme (a : t) : option Lexeme.t * t :=
  dynamic_loop dynamic_lexeme_definitions a.

(** What one pass through the body of the [while] loop of [parse] does. *)
Inductive iteration : Type :=
| Continue (a : t)
| Break (a : t)
| Raise (e : UnknownLexemeException) (a : t).

Definition loop_body (a : t) : iteration :=
  let a1 := skip_spaces a in
  if negb (in_bounds a1) then Break a1
  else
    let (lexeme, a2) := process_static_lexeme a1 in
    let (lexeme, a3) :=
      match lexeme with
      | Some l => (Some l, a2)
      | None => process_dynamic_lexeme a2
      end in
    match lexeme with
    | None => Raise (unknown_lexeme (offset a3)) a3
    | Some l => Continue (append a3 l)
    end.

(** How a call of [parse] ends: it returns, or the exception leaves it. *)
Inductive outcome : Type :=
| Returned
| Raised (e : UnknownLexemeException).

(** The [while] loop, run for at most [fuel] passes; [None] when the
    passes are used up before the loop has ended. *)
Fixpoint parse_loop (fuel : nat) (a : t) : option (outcome * t) :=
  if in_bounds a then
    match fuel with
    | 0 => None
    | S fuel' =>
        match loop_body a with
        | Continue a' => parse_loop fuel' a'
        | Break a' => Some (Returned, a')
        | Raise e a' => Some (Raised e, a')
        end
    end
  else Some (Returned, a).

Definition parse (a : t) : option (outcome * t) :=
  parse_loop (length (source a)) a.

End LexicalAnalyzer.

Import LexicalAnalyzer.

(** [analyzer = LexicalAnalyzer(source); analyzer.parse()] as in [main.py]. *)
Definition analyze (source : string) : option (outcome * LexicalAnalyzer.t) :=
  parse (init (lit source)).

(** Kind and text of a token. *)
Definition kind_text (l : Lexeme.t) : LexemeType * string :=
  (Lexeme.lexeme_type l, string_of_list_ascii (Lexeme.lexeme_value l)).

(** What the caller of [parse] can observe: how the call ended and the
    list [analyzer.lexemes]. *)
Definition result_of (source : string) : option (outcome * list Lexeme.t) :=
  option_map (fun r => (fst r, lexemes (snd r))) (analyze source).

(** The check [source[offset : offset+length] == text] on a token. *)
Definition span_ok (source : str) (l : Lexeme.t) : bool :=
  str_eqb (slice source (Lexeme.offset l) (Lexeme.offset l + Lexeme.length l))
          (Lexeme.lexeme_value l).

(** The members listed under [# Keywords] in [LexemeType]. *)
Definition is_keyword_kind (t : LexemeType) : bool :=
  match t with
  | Dim | Print | Const | Option | Explicit | Set_ | If | Else | Sub | End
  | For | Each | Next => true
  | _ => false
  end.

(** A definition survives both [continue] tests of [process_static_lexeme]. *)
Definition static_match (d : StaticLexemeDefinition) (a : LexicalAnalyzer.t) : bool :=
  let rep := static_representation d in
  let n := length rep in
  negb ((length (source a) <? offset a + n)
        || (find (source a) rep (offset a) (offset a + n) =? -1)%Z)
  && negb ((offset a + n <? length (source a))
           && is_keyword d
           && (Ascii.eqb (char_at (source a) (offset a + n)) (ch "_")
               || isalnum (char_at (source a) (offset a + n)))).

(** The token a definition yields, with the cursor already advanced. *)
Definition static_lexeme (d : StaticLexemeDefinition) (a : LexicalAnalyzer.t) : Lexeme.t :=
  Lexeme.mk (static_type d) (static_representation d)
            (offset a + length (static_representation d))
            (length (static_representation d)).

(** Lines 156 to 158 of [parse]: the static matcher, then the dynamic one. *)
Definition next_lexeme (a : LexicalAnalyzer.t) : option Lexeme.t * LexicalAnalyzer.t :=
  match process_static_lexeme a with
  | (Some l, a2) => (Some l, a2)
  | (None, a2) => process_dynamic_lexeme a2
  end.

(** A pattern that cannot match the empty text. *)
Definition consumes (r : regex) : Prop :=
  forall s rest, match_here r s Some = Some rest -> length rest < length s.

(** The token a dynamic definition yields for a span found by [search]. *)
Definition dynamic_lexeme (d : DynamicLexemeDefinition) (a : LexicalAnalyzer.t)
    (span : nat * nat) : Lexeme.t :=
  Lexeme.mk (dynamic_type d) (slice (source a) (fst span) (snd span))
            (offset a + (snd span - fst span)) (snd span - fst span).

(** [sub] is a prefix of [s]. *)
Fixpoint starts_with (sub s : str) : bool :=
  match sub, s with
  | [], _ => true
  | x :: sub', y :: s' => Ascii.eqb x y && starts_with sub' s'
  | _ :: _, [] => false
  end.

(** [static_match], read on the text from the cursor on. *)
Definition suffix_match (d : StaticLexemeDefinition) (suf : str) : bool :=
  starts_with (static_representation d) suf
  && negb (is_keyword d
           && match skipn (length (static_representation d)) suf with
              | c :: _ => Ascii.eqb c (ch "_") || isalnum c
              | [] => false
              end).

(** ** Texts made of catalogue literals *)

Definition whitespace (ws : str) : Prop := forallb is_space ws = true.

(** The two definitions that come after a definition whose literal is a
    prefix of theirs. *)
Definition shadowed (t : LexemeType) : bool :=
  match t with
  | AndAlso | OrElse => true
  | _ => false
  end.

(** Each literal followed by its separator. *)
Fixpoint layout (items : list (StaticLexemeDefinition * str)) : str :=
  match items with
  | [] => []
  | (d, sep) :: rest => static_representation d ++ sep ++ layout rest
  end.

(** Every literal is the one of a definition of the table that is not
    shadowed, every separator is whitespace, and only the last may be empty. *)
Fixpoint separated (items : list (StaticLexemeDefinition * str)) : Prop :=
  match items with
  | [] => True
  | (d, sep) :: rest =>
      In d static_lexeme_definitions /\ shadowed (static_type d) = false /\
      whitespace sep /\ (sep = [] -> rest = []) /\ separated rest
  end.

(** Kind and text of the token that a definition yields. *)
Definition definition_kind_text (d : StaticLexemeDefinition) : LexemeType * str :=
  (static_type d, static_representation d).

Definition lexeme_kind_text (l : Lexeme.t) : LexemeType * str :=
  (Lexeme.lexeme_type l, Lexeme.lexeme_value l).

(** ** The character classes of the two patterns *)

(** The first class of the identifier pattern. *)
Definition ident_start (c : ascii) : bool :=
  in_class [Range (ch "a") (ch "z"); Range (ch "A") (ch "Z"); Single (ch "_")] c.

(** The starred class of the identifier pattern. *)
Definition ident_char (c : ascii) : bool :=
  in_class [Range (ch "a") (ch "z"); Range (ch "A") (ch "Z");
            Range (ch "0") (ch "9"); Single (ch "_")] c.

(** The two classes of the number pattern. *)
Definition nonzero_digit (c : ascii) : bool := in_class [Range (ch "1") (ch "9")] c.

Definition digit (c : ascii) : bool := in_class [Range (ch "0") (ch "9")] c.

Fixpoint drop_while (p : ascii -> bool) (s : str) : str :=
  match s with
  | c :: s' => if p c then drop_while p s' else s
  | [] => []
  end.

Fixpoint take_while (p : ascii -> bool) (s : str) : str :=
  match s with
  | c :: s' => if p c then c :: take_while p s' else []
  | [] => []
  end.

(** No character of [s] satisfies [p]. *)
Definition none_of (p : ascii -> bool) (s : str) : Prop :=
  forallb (fun c => negb (p c)) s = true.

(** [s] is empty or begins with a character that does not satisfy [p]. *)
Definition stops (p : ascii -> bool) (s : str) : Prop :=
  match s with
  | c :: _ => p c = false
  | [] => True
  end.

(** ** Well-formed analyzer states *)

(** What holds of a token once it is in [lexemes], when the cursor is at
    [cursor]: its length is the length of its text and is not zero, and its
    offset is at least that length and not beyond the cursor. *)
Definition token_ok (cursor : nat) (l : Lexeme.t) : Prop :=
  Lexeme.length l = length (Lexeme.lexeme_value l) /\
  0 < Lexeme.length l /\
  Lexeme.length l <= Lexeme.offset l /\
  Lexeme.offset l <= cursor.

Definition offset_lt (l1 l2 : Lexeme.t) : Prop :=
  Lexeme.offset l1 < Lexeme.offset l2.

Definition well_formed (a : LexicalAnalyzer.t) : Prop :=
  offset a <= length (source a) /\
  Forall (token_ok (offset a)) (lexemes a) /\
  StronglySorted offset_lt (lexemes a) /\
  list_sum (map Lexeme.length (lexemes a)) <= offset a.

(** ** Kinds and texts *)

(** The kinds that no run produces. *)
Definition unreachable_kind (t : LexemeType) : bool :=
  match t with
  | Sub | Next | AndAlso | OrElse => true
  | _ => false
  end.

(** The test on [next_char] in [process_static_lexeme]. *)
Definition word_char (c : ascii) : bool := Ascii.eqb c (ch "_") || isalnum c.

(** A letter or underscore followed by letters, digits and underscores. *)
Definition is_identifier (v : str) : bool :=
  match v with
  | x :: body => ident_start x && forallb ident_char body
  | [] => false
  end.

(** The digit 0, or digits of which the first is not 0. *)
Definition is_number (v : str) : bool :=
  match v with
  | x :: body =>
      (Ascii.eqb x (ch "0") && match body with [] => true | _ => false end)
      || (nonzero_digit x && forallb digit body)
  | [] => false
  end.

(** The text of a token goes with its kind. *)
Definition text_of_kind (l : Lexeme.t) : Prop :=
  match Lexeme.lexeme_type l with
  | Identifier => is_identifier (Lexeme.lexeme_value l) = true
  | Number => is_number (Lexeme.lexeme_value l) = true
  | t => Lexeme.lexeme_value l = value t
  end.

(** ** The driver of [main.py] *)

(** [str(lex)], that is [Lexeme.__str__]. *)
Definition lexeme_str (l : Lexeme.t) : str := Lexeme.lexeme_value l.

(** An [int] in an f-string: its decimal digits. *)
Definition decimal (n : nat) : str := lit (NilEmpty.string_of_uint (Nat.to_uint n)).

(** The attribute [msg] that [UnknownLexemeException.__init__] sets. *)
Definition msg (e : UnknownLexemeException) : str :=
  lit "Unknown lexeme at " ++ decimal (pos e).

Definition hex_digit (n : nat) : ascii := nth n (lit "0123456789abcdef") (chr 0).

(** [c.isprintable()] on code points 0 to 255. *)
Definition isprintable (c : ascii) : bool :=
  let n := nat_of_ascii c in
  between 32 126 n || (between 161 255 n && negb (n =? 173)).

(** One character inside [repr] of a [str] delimited by [quote]. *)
Definition repr_char (quote c : ascii) : str :=
  let n := nat_of_ascii c in
  if Ascii.eqb c quote || Ascii.eqb c (chr 92) then [chr 92; c]
  else if n =? 9 then [chr 92; chr 116]
  else if n =? 10 then [chr 92; chr 110]
  else if n =? 13 then [chr 92; chr 114]
  else if isprintable c then [c]
  else [chr 92; chr 120; hex_digit (n / 16); hex_digit (n mod 16)].

(** [repr] of a [str]: single quotes, unless the text has a single quote
    and no double quote. *)
Definition repr (s : str) : str :=
  let quote :=
    if existsb (Ascii.eqb (chr 39)) s && negb (existsb (Ascii.eqb (chr 34)) s)
    then chr 34 else chr 39 in
  quote :: flat_map (repr_char quote) s ++ [quote].

Fixpoint join (sep : str) (xs : list str) : str :=
  match xs with
  | [] => []
  | [x] => x
  | x :: rest => x ++ sep ++ join sep rest
  end.

(** [str] of a list of [str]: the [repr] of the items between brackets,
    with a comma and a space between them. *)
Definition str_of_list (xs : list str) : str :=
  chr 91 :: join [chr 44; chr 32] (map repr xs) ++ [chr 93].

(** [start_lexical_analyzer], from the text [f_code.read()] has returned:
    the arguments of the calls of [print], in order, and the text given to
    [f_result.write]. *)
Definition start_lexical_analyzer (source : str) : option (list str * str) :=
  match parse (init source) with
  | Some (Returned, analyzer) =>
      Some ([], str_of_list (map lexeme_str (lexemes analyzer)))
  | Some (Raised e, analyzer) =>
      Some ([msg e; lit "unparsed part: " ++ skipn (pos e) source],
            str_of_list (map lexeme_str (lexemes analyzer)))
  | None => None
  end.

(** A text between single quotes, with a backslash doubled when the text
    is the backslash. *)
Definition quoted (t : str) : str :=
  chr 39 :: (if str_eqb t [chr 92] then [chr 92; chr 92] else t) ++ [chr 39].

(** A printable character other than the single quote and the backslash. *)
Definition plain (c : ascii) : bool :=
  isprintable c && negb (Ascii.eqb c (chr 39)) && negb (Ascii.eqb c (chr 92)).

(** The text of the token [l] is in [s], at [start]. *)
Definition text_at (s : str) (start : nat) (l : Lexeme.t) : Prop :=
  slice s start (start + Lexeme.length l) = Lexeme.lexeme_value l.

(** The cursor before the token [l] was matched. *)
Definition cursor_before (l : Lexeme.t) : nat := Lexeme.offset l - Lexeme.length l.

Definition is_dynamic_kind (t : LexemeType) : bool :=
  match t with
  | Identifier | Number => true
  | _ => false
  end.

(** ** Clean texts *)

(** Text that is empty or begins with whitespace. *)
Definition at_gap (tail : str) : Prop :=
  match tail with
  | c :: _ => is_space c = true
  | [] => True
  end.

(** No definition of the table matches at the beginning of [w], when [w]
    stands alone. *)
Definition static_free (w : str) : bool :=
  forallb (fun d => negb (suffix_match d w)) static_lexeme_definitions.

(** A word of a clean text: the literal of a definition, an identifier or
    a number. *)
Inductive word : Type :=
| Literal (d : StaticLexemeDefinition)
| Name (w : str)
| Numeral (w : str).

Definition word_text (w : word) : str :=
  match w with
  | Literal d => static_representation d
  | Name t => t
  | Numeral t => t
  end.

Definition word_kind (w : word) : LexemeType :=
  match w with
  | Literal d => static_type d
  | Name _ => Identifier
  | Numeral _ => Number
  end.

(** A literal is the one of a definition of the table that is not
    shadowed; a name is an identifier at the beginning of which no
    definition matches; a numeral is 0 or begins with another digit. *)
Definition word_ok (w : word) : Prop :=
  match w with
  | Literal d => In d static_lexeme_definitions /\ shadowed (static_type d) = false
  | Name t => is_identifier t = true /\ static_free t = true
  | Numeral t => is_number t = true
  end.

(** Each word followed by its separator. *)
Fixpoint text_of (items : list (word * str)) : str :=
  match items with
  | [] => []
  | (w, sep) :: rest => word_text w ++ sep ++ text_of rest
  end.

(** The words are as [word_ok] says, the separators are whitespace and
    only the last may be empty, and no letter and no underscore comes
    anywhere after a numeral. *)
Fixpoint clean (items : list (word * str)) : Prop :=
  match items with
  | [] => True
  | (w, sep) :: rest =>
      word_ok w /\ whitespace sep /\ (sep = [] -> rest = []) /\
      match w with
      | Numeral _ => none_of ident_start (text_of rest)
      | _ => True
      end /\
      clean rest
  end.

(** ** The state of the process *)

(** The module-level names that the methods of [LexicalAnalyzer] look up
    each time they run: the two tables and the class attribute
    [space_chars]. They are lists, which Python lets any code change. *)
Record Process : Type := {
  static_table : list StaticLexemeDefinition;
  dynamic_table : list DynamicLexemeDefinition;
  space_table : list ascii
}.

(** The process when the module has been loaded. *)
Definition module_state : Process :=
  {| static_table := static_lexeme_definitions;
     dynamic_table := dynamic_lexeme_definitions;
     space_table := space_chars |}.

(** A computation in a process: it is given the state of the process and
    leaves one. *)
Definition Run (A : Type) : Type := Process -> A * Process.

Definition ret {A : Type} (x : A) : Run A := fun g => (x, g).

Definition bind {A B : Type} (m : Run A) (k : A -> Run B) : Run B :=
  fun g => let (x, g') := m g in k x g'.

(** Reading a module-level name. *)
Definition lookup {A : Type} (name : Process -> A) : Run A := fun g => (name g, g).

(** The loop of [skip_spaces], with the list that [space_chars] names. *)
Fixpoint skip_spaces_with (spaces : list ascii) (rest : str) (off : nat) : nat :=
  match rest with
  | c :: rest' =>
      if existsb (Ascii.eqb c) spaces then skip_spaces_with spaces rest' (S off)
      else off
  | [] => off
  end.

Definition skip_spaces_run (a : LexicalAnalyzer.t) : Run LexicalAnalyzer.t :=
  bind (lookup space_table) (fun spaces =>
  ret (set_offset a (skip_spaces_with spaces (skipn (offset a) (source a)) (offset a)))).

Definition process_static_lexeme_run (a : LexicalAnalyzer.t)
  : Run (option Lexeme.t * LexicalAnalyzer.t) :=
  bind (lookup static_table) (fun defs => ret (static_loop defs a)).

Definition process_dynamic_lexeme_run (a : LexicalAnalyzer.t)
  : Run (option Lexeme.t * LexicalAnalyzer.t) :=
  bind (lookup dynamic_table) (fun defs => ret (dynamic_loop defs a)).

(** The body of the loop of [parse], in a process. *)
Definition loop_body_run (a : LexicalAnalyzer.t) : Run iteration :=
  bind (skip_spaces_run a) (fun a1 =>
  if negb (in_bounds a1) then ret (Break a1)
  else
    bind (process_static_lexeme_run a1) (fun r1 =>
    bind (match fst r1 with
          | Some l => ret (Some l, snd r1)
          | None => process_dynamic_lexeme_run (snd r1)
          end) (fun r2 =>
    match fst r2 with
    | None => ret (Raise (unknown_lexeme (offset (snd r2))) (snd r2))
    | Some l => ret (Continue (append (snd r2) l))
    end))).

Fixpoint parse_loop_run (fuel : nat) (a : LexicalAnalyzer.t)
  : Run (option (outcome * LexicalAnalyzer.t)) :=
  if in_bounds a then
    match fuel with
    | 0 => ret None
    | S fuel' =>
        bind (loop_body_run a) (fun i =>
        match i with
        | Continue a' => parse_loop_run fuel' a'
        | Break a' => ret (Some (Returned, a'))
        | Raise e a' => ret (Some (Raised e, a'))
        end)
    end
  else ret (Some (Returned, a)).

(** [analyzer.parse()] on an analyzer that exists. *)
Definition parse_run (a : LexicalAnalyzer.t)
  : Run (option (outcome * LexicalAnalyzer.t)) :=
  parse_loop_run (length (source a)) a.

(** One run: [analyzer = LexicalAnalyzer(source); analyzer.parse()]. *)
Definition analyze_run (source : str)
  : Run (option (outcome * LexicalAnalyzer.t)) :=
  parse_run (init source).

(** ** Relational view of the [while] loop *)

(** [runs a r]: started in state [a], the loop of [parse] ends with [r]. *)
Inductive runs : LexicalAnalyzer.t -> outcome * LexicalAnalyzer.t -> Prop :=
| runs_out a :
    in_bounds a = false -> runs a (Returned, a)
| runs_break a a' :
    in_bounds a = true -> loop_body a = Break a' -> runs a (Returned, a')
| runs_raise a e a' :
    in_bounds a = true -> loop_body a = Raise e a' -> runs a (Raised e, a')
| runs_continue a a' r :
    in_bounds a = true -> loop_body a = Continue a' -> runs a' r -> runs a r.

(** [passes a toks b]: from [a], the loop makes one pass per token of
    [toks], each pass matching and appending that token, and is then at the
    head of the loop in state [b]. *)
Inductive passes : LexicalAnalyzer.t -> list Lexeme.t -> LexicalAnalyzer.t -> Prop :=
| passes_nil a : passes a [] a
| passes_cons a l b toks c :
    in_bounds a = true ->
    in_bounds (skip_spaces a) = true ->
    next_lexeme (skip_spaces a) = (Some l, b) ->
    passes (append b l) toks c ->
    passes a (l :: toks) c.

(** * Properties *)

Arguments process_static_lexeme : simpl never.
Arguments process_dynamic_lexeme : simpl never.
Arguments next_lexeme : simpl never.
Arguments loop_body : simpl never.
Arguments skip_spaces : simpl never.
Arguments in_bounds : simpl never.

(** ** The cursor only moves forward *)

Lemma skip_spaces_from_ge (rest : str) (off : nat) :
  off <= skip_spaces_from rest off.
Proof.
  revert off; induction rest as [|c rest IH]; intros off; simpl.
  - lia.
  - destruct (is_space c); [specialize (IH (S off))|]; lia.
Qed.

Lemma skip_spaces_offset (a : LexicalAnalyzer.t) :
  offset a <= offset (skip_spaces a).
Proof. apply skip_spaces_from_ge. Qed.

Lemma skip_spaces_source (a : LexicalAnalyzer.t) :
  source (skip_spaces a) = source a.
Proof. reflexivity. Qed.

Lemma skip_spaces_lexemes (a : LexicalAnalyzer.t) :
  lexemes (skip_spaces a) = lexemes a.
Proof. reflexivity. Qed.

(** [process_static_lexeme] returns the token of the first definition, in
    table order, that survives both tests. *)
Lemma static_loop_find (defs : list StaticLexemeDefinition) (a : LexicalAnalyzer.t) :
  static_loop defs a =
  match List.find (fun d => static_match d a) defs with
  | Some d =>
      (Some (static_lexeme d a),
       set_offset a (offset a + length (static_representation d)))
  | None => (None, a)
  end.
Proof.
  induction defs as [|d defs IH]; simpl; [reflexivity|].
  unfold static_match at 1.
  destruct (_ || _); simpl; [exact IH|].
  destruct (_ && _ && _); simpl; [exact IH|reflexivity].
Qed.

Lemma static_representation_nonempty :
  Forall (fun d => 0 < length (static_representation d)) static_lexeme_definitions.
Proof. repeat constructor. Qed.

Lemma process_static_some (a a' : LexicalAnalyzer.t) (l : Lexeme.t) :
  process_static_lexeme a = (Some l, a') ->
  exists d, In d static_lexeme_definitions /\ static_match d a = true /\
            l = static_lexeme d a /\
            a' = set_offset a (offset a + length (static_representation d)).
Proof.
  unfold process_static_lexeme; rewrite static_loop_find.
  destruct (List.find _ _) as [d|] eqn:F; [|discriminate].
  intros H; injection H as <- <-.
  apply find_some in F as [Hin Hm]. eauto.
Qed.

Lemma process_static_none (a a' : LexicalAnalyzer.t) :
  process_static_lexeme a = (None, a') -> a' = a.
Proof.
  unfold process_static_lexeme; rewrite static_loop_find.
  destruct (List.find _ _); [discriminate|congruence].
Qed.

(** Whatever a match returns was handed to the continuation on a text no
    longer than the one the match started on. *)
Lemma star_loop_suffix (body : str -> (str -> option str) -> option str) :
  (forall s k rest, body s k = Some rest ->
     exists s', length s' <= length s /\ k s' = Some rest) ->
  forall n s k rest, star_loop body k n s = Some rest ->
     exists s', length s' <= length s /\ k s' = Some rest.
Proof.
  intros Hbody n; induction n as [|n IH]; intros s k rest; simpl.
  - intros H; exists s; split; [lia|exact H].
  - destruct (body s _) as [r1|] eqn:B.
    + intros H; injection H as ->.
      apply Hbody in B as (s1 & Hle & Hk).
      destruct (length s1 <? length s); [|discriminate].
      apply IH in Hk as (s2 & Hle2 & Hk2).
      exists s2; split; [lia|exact Hk2].
    + intros H; exists s; split; [lia|exact H].
Qed.

Lemma match_here_suffix (r : regex) :
  forall s k rest, match_here r s k = Some rest ->
     exists s', length s' <= length s /\ k s' = Some rest.
Proof.
  induction r as [c|items|r1 IH1 r2 IH2|r1 IH1 r2 IH2|r1 IH1];
    intros s k rest; simpl.
  - destruct s as [|x s']; [discriminate|].
    destruct (Ascii.eqb x c); [|discriminate].
    intros H; exists s'; simpl; split; [lia|exact H].
  - destruct s as [|x s']; [discriminate|].
    destruct (in_class items x); [|discriminate].
    intros H; exists s'; simpl; split; [lia|exact H].
  - intros H. apply IH1 in H as (s1 & Hle1 & H).
    apply IH2 in H as (s2 & Hle2 & H).
    exists s2; split; [lia|exact H].
  - destruct (match_here r1 s k) as [x|] eqn:M.
    + intros H; injection H as ->. apply IH1; exact M.
    + apply IH2.
  - apply star_loop_suffix; exact IH1.
Qed.

Lemma chr_consumes (c : ascii) : consumes (Chr c).
Proof.
  intros [|x s'] rest; simpl; [discriminate|].
  destruct (Ascii.eqb x c); [|discriminate].
  intros H; injection H as <-. lia.
Qed.

Lemma cls_cat_consumes (items : list class_item) (r : regex) :
  consumes (Cat (Cls items) r).
Proof.
  intros [|x s'] rest; simpl; [discriminate|].
  destruct (in_class items x); [|discriminate].
  intros H. apply match_here_suffix in H as (s2 & Hle & H).
  injection H as <-. lia.
Qed.

Lemma alt_consumes (r1 r2 : regex) :
  consumes r1 -> consumes r2 -> consumes (Alt r1 r2).
Proof.
  intros H1 H2 s rest; simpl.
  destruct (match_here r1 s Some) as [x|] eqn:M.
  - intros H; injection H as <-. apply H1; exact M.
  - apply H2.
Qed.

Lemma identifier_pattern_consumes : consumes identifier_pattern.
Proof. apply cls_cat_consumes. Qed.

Lemma number_pattern_consumes : consumes number_pattern.
Proof. apply alt_consumes; [apply chr_consumes|apply cls_cat_consumes]. Qed.

Lemma dynamic_patterns_consume :
  Forall (fun d => consumes (dynamic_representation d)) dynamic_lexeme_definitions.
Proof.
  repeat constructor; simpl.
  - exact identifier_pattern_consumes.
  - exact number_pattern_consumes.
Qed.

Lemma search_at_span (r : regex) (Hr : consumes r) :
  forall s pos p q, search_at r s pos = Some (p, q) ->
    pos <= p /\ p < q /\ q <= pos + length s.
Proof.
  induction s as [|x s IH]; intros pos p q; cbn [search_at].
  - destruct (match_here r [] Some) as [rest|] eqn:M; [|discriminate].
    apply Hr in M. simpl in M. lia.
  - destruct (match_here r (x :: s) Some) as [rest|] eqn:M.
    + apply Hr in M.
      intros H; injection H as <- <-.
      cbn [length] in *. destruct (length rest); lia.
    + intros H. apply IH in H. change (length (x :: s)) with (S (length s)). lia.
Qed.

Lemma search_span (r : regex) (Hr : consumes r) (source : str) (pos p q : nat) :
  search r source pos = Some (p, q) ->
  pos <= p /\ p < q /\ q <= length source.
Proof.
  unfold search. destruct (pos <=? length source) eqn:L; [|discriminate].
  apply Nat.leb_le in L. intros H.
  apply (search_at_span r Hr) in H. rewrite length_skipn in H. lia.
Qed.

Lemma dynamic_loop_some (defs : list DynamicLexemeDefinition)
    (a a' : LexicalAnalyzer.t) (l : Lexeme.t) :
  dynamic_loop defs a = (Some l, a') ->
  exists d span, In d defs /\
    search (dynamic_representation d) (source a) (offset a) = Some span /\
    l = dynamic_lexeme d a span /\
    a' = set_offset a (offset a + (snd span - fst span)).
Proof.
  induction defs as [|d defs IH]; simpl; [discriminate|].
  destruct (search _ _ _) as [span|] eqn:S.
  - intros H; injection H as <- <-.
    exists d, span; repeat split; auto.
  - intros H. destruct (IH H) as (d' & span & Hin & Hs & Hl & Ha).
    exists d', span; repeat split; auto.
Qed.

Lemma dynamic_loop_none (defs : list DynamicLexemeDefinition)
    (a a' : LexicalAnalyzer.t) :
  dynamic_loop defs a = (None, a') <->
  a' = a /\
  Forall (fun d => search (dynamic_representation d) (source a) (offset a) = None) defs.
Proof.
  induction defs as [|d defs IH]; simpl.
  - split; [intros H; injection H as <-; auto|intros [-> _]; reflexivity].
  - destruct (search _ _ _) as [span|] eqn:S.
    + split; [discriminate|]. intros [_ H]. inversion H; congruence.
    + rewrite IH. split; intros [-> H]; split; auto.
      inversion H; assumption.
Qed.

Lemma process_dynamic_some (a a' : LexicalAnalyzer.t) (l : Lexeme.t) :
  process_dynamic_lexeme a = (Some l, a') ->
  offset a < offset a' /\ source a' = source a /\ lexemes a' = lexemes a /\
  Lexeme.offset l = offset a' /\ 0 < Lexeme.length l.
Proof.
  intros H. apply dynamic_loop_some in H as (d & [p q] & Hin & Hs & -> & ->).
  pose proof dynamic_patterns_consume as C.
  rewrite Forall_forall in C. apply (search_span _ (C d Hin)) in Hs.
  simpl. repeat split; lia.
Qed.

Lemma process_static_some_offset (a a' : LexicalAnalyzer.t) (l : Lexeme.t) :
  process_static_lexeme a = (Some l, a') ->
  offset a < offset a' /\ source a' = source a /\ lexemes a' = lexemes a /\
  Lexeme.offset l = offset a' /\ 0 < Lexeme.length l.
Proof.
  intros H. apply process_static_some in H as (d & Hin & _ & -> & ->).
  pose proof static_representation_nonempty as C.
  rewrite Forall_forall in C. specialize (C d Hin).
  simpl. repeat split; lia.
Qed.

(** ** One pass of the loop *)

Lemma loop_body_next (a : LexicalAnalyzer.t) :
  loop_body a =
  if negb (in_bounds (skip_spaces a)) then Break (skip_spaces a)
  else match next_lexeme (skip_spaces a) with
       | (Some l, b) => Continue (append b l)
       | (None, b) => Raise (unknown_lexeme (offset b)) b
       end.
Proof.
  unfold loop_body, next_lexeme.
  destruct (negb _); [reflexivity|].
  destruct (process_static_lexeme _) as [[l|] a2]; [reflexivity|].
  destruct (process_dynamic_lexeme a2) as [[l|] a3]; reflexivity.
Qed.

Lemma next_lexeme_some (a a' : LexicalAnalyzer.t) (l : Lexeme.t) :
  next_lexeme a = (Some l, a') ->
  offset a < offset a' /\ source a' = source a /\ lexemes a' = lexemes a /\
  Lexeme.offset l = offset a' /\ 0 < Lexeme.length l.
Proof.
  unfold next_lexeme.
  destruct (process_static_lexeme a) as [[l1|] a2] eqn:S.
  - intros H; injection H as <- <-. apply process_static_some_offset; exact S.
  - apply process_static_none in S as ->. apply process_dynamic_some.
Qed.

Lemma next_lexeme_none (a a' : LexicalAnalyzer.t) :
  next_lexeme a = (None, a') <->
  a' = a /\
  Forall (fun d => static_match d a = false) static_lexeme_definitions /\
  Forall (fun d => search (dynamic_representation d) (source a) (offset a) = None)
         dynamic_lexeme_definitions.
Proof.
  unfold next_lexeme, process_static_lexeme, process_dynamic_lexeme.
  rewrite static_loop_find.
  destruct (List.find _ _) as [d|] eqn:F.
  - split; [discriminate|]. intros (_ & H & _).
    apply find_some in F as [Hin Hm].
    rewrite Forall_forall in H. rewrite (H d Hin) in Hm. discriminate.
  - rewrite dynamic_loop_none. split.
    + intros [-> H]. repeat split; auto.
      apply Forall_forall. intros d Hin.
      apply (find_none _ _ F d Hin).
    + intros (-> & _ & H). auto.
Qed.

Lemma loop_body_continue (a a' : LexicalAnalyzer.t) :
  loop_body a = Continue a' ->
  offset a < offset a' /\ source a' = source a /\
  exists l, lexemes a' = lexemes a ++ [l].
Proof.
  rewrite loop_body_next. destruct (negb _); [discriminate|].
  destruct (next_lexeme _) as [[l|] b] eqn:N; [|discriminate].
  intros H; injection H as <-.
  apply next_lexeme_some in N as (Ho & Hs & Hl & _).
  pose proof (skip_spaces_offset a). simpl.
  rewrite Hs, Hl. repeat split; [lia|]. exists l; reflexivity.
Qed.

Lemma loop_body_break (a a' : LexicalAnalyzer.t) :
  loop_body a = Break a' ->
  a' = skip_spaces a /\ in_bounds (skip_spaces a) = false.
Proof.
  rewrite loop_body_next. destruct (in_bounds (skip_spaces a)); simpl.
  - destruct (next_lexeme _) as [[l|] b]; discriminate.
  - intros H; injection H as <-. auto.
Qed.

Lemma loop_body_raise (a a' : LexicalAnalyzer.t) (e : UnknownLexemeException) :
  loop_body a = Raise e a' <->
  in_bounds (skip_spaces a) = true /\
  next_lexeme (skip_spaces a) = (None, skip_spaces a) /\
  a' = skip_spaces a /\ e = unknown_lexeme (offset (skip_spaces a)).
Proof.
  rewrite loop_body_next. destruct (in_bounds (skip_spaces a)); simpl.
  - destruct (next_lexeme _) as [[l|] b] eqn:N.
    + split; [discriminate|]. intros (_ & H & _). discriminate.
    + pose proof (proj1 (next_lexeme_none _ _) N) as [-> _].
      split.
      * intros H; injection H as <- <-. auto.
      * intros (_ & _ & -> & ->). reflexivity.
  - split; [discriminate|]. intros (H & _). discriminate.
Qed.

(** ** The loop ends, and [runs] describes how *)

Lemma parse_loop_total (fuel : nat) :
  forall a, length (source a) - offset a <= fuel ->
  exists r, parse_loop fuel a = Some r.
Proof.
  induction fuel as [|fuel IH]; intros a Hf; simpl.
  - destruct (in_bounds a) eqn:B; [|eauto].
    apply Nat.ltb_lt in B. lia.
  - destruct (in_bounds a) eqn:B; [|eauto].
    destruct (loop_body a) as [a'|a'|e a'] eqn:L; eauto.
    apply loop_body_continue in L as (Ho & Hs & _).
    apply IH. rewrite Hs. lia.
Qed.

Lemma parse_loop_runs (fuel : nat) :
  forall a r, parse_loop fuel a = Some r -> runs a r.
Proof.
  induction fuel as [|fuel IH]; intros a r; simpl.
  - destruct (in_bounds a) eqn:B; [discriminate|].
    intros H; injection H as <-. apply runs_out; exact B.
  - destruct (in_bounds a) eqn:B.
    + destruct (loop_body a) as [a'|a'|e a'] eqn:L.
      * intros H. apply (runs_continue a a'); auto.
      * intros H; injection H as <-. apply runs_break; auto.
      * intros H; injection H as <-. apply runs_raise; auto.
    + intros H; injection H as <-. apply runs_out; exact B.
Qed.

Lemma runs_functional (a : LexicalAnalyzer.t) (r1 r2 : outcome * LexicalAnalyzer.t) :
  runs a r1 -> runs a r2 -> r1 = r2.
Proof.
  intros H1; revert r2.
  induction H1 as [a B|a a' B L|a e a' B L|a a' r B L H IH];
    intros r2 H2; inversion H2; subst; try congruence.
  apply IH. congruence.
Qed.

Lemma runs_parse_loop (a : LexicalAnalyzer.t) (r : outcome * LexicalAnalyzer.t) :
  runs a r ->
  forall fuel, length (source a) - offset a <= fuel -> parse_loop fuel a = Some r.
Proof.
  intros H fuel Hf.
  destruct (parse_loop_total fuel a Hf) as [r' E].
  rewrite E. f_equal. apply (runs_functional a); [|exact H].
  apply (parse_loop_runs fuel); exact E.
Qed.

Lemma parse_runs (a : LexicalAnalyzer.t) (r : outcome * LexicalAnalyzer.t) :
  parse a = Some r <-> runs a r.
Proof.
  split.
  - apply parse_loop_runs.
  - intros H. apply runs_parse_loop; [exact H|lia].
Qed.

Lemma runs_offset (a : LexicalAnalyzer.t) (r : outcome * LexicalAnalyzer.t) :
  runs a r -> offset a <= offset (snd r) /\ source (snd r) = source a.
Proof.
  induction 1 as [a B|a a' B L|a e a' B L|a a' r B L H IH]; simpl.
  - auto.
  - apply loop_body_break in L as [-> _].
    split; [apply skip_spaces_offset|reflexivity].
  - apply loop_body_raise in L as (_ & _ & -> & _).
    split; [apply skip_spaces_offset|reflexivity].
  - apply loop_body_continue in L as (Ho & Hs & _).
    destruct IH as [IH1 IH2]. split; [lia|congruence].
Qed.

(** ** Passes that append a token *)

Lemma passes_continue (a b : LexicalAnalyzer.t) (l : Lexeme.t) :
  in_bounds (skip_spaces a) = true ->
  next_lexeme (skip_spaces a) = (Some l, b) ->
  loop_body a = Continue (append b l).
Proof.
  intros B N. rewrite loop_body_next, B, N. reflexivity.
Qed.

Lemma passes_lexemes (a b : LexicalAnalyzer.t) (toks : list Lexeme.t) :
  passes a toks b -> lexemes b = lexemes a ++ toks.
Proof.
  induction 1 as [a|a l b toks c B1 B2 N H IH].
  - symmetry; apply app_nil_r.
  - rewrite IH. simpl. apply next_lexeme_some in N as (_ & _ & -> & _).
    rewrite skip_spaces_lexemes, <- app_assoc. reflexivity.
Qed.

Lemma passes_runs (a b : LexicalAnalyzer.t) (toks : list Lexeme.t)
    (r : outcome * LexicalAnalyzer.t) :
  passes a toks b -> runs b r -> runs a r.
Proof.
  induction 1 as [a|a l b toks c B1 B2 N H IH]; intros R; [exact R|].
  apply (runs_continue a (append b l)); auto.
  apply passes_continue; assumption.
Qed.

Lemma loop_body_continue_inv (a a' : LexicalAnalyzer.t) :
  loop_body a = Continue a' ->
  in_bounds (skip_spaces a) = true /\
  exists l b, next_lexeme (skip_spaces a) = (Some l, b) /\ a' = append b l.
Proof.
  rewrite loop_body_next. destruct (in_bounds (skip_spaces a)); simpl.
  - destruct (next_lexeme _) as [[l|] b]; [|discriminate].
    intros H. split; [reflexivity|]. exists l, b. split; congruence.
  - discriminate.
Qed.

Lemma runs_raised_passes (a : LexicalAnalyzer.t) (r : outcome * LexicalAnalyzer.t) :
  runs a r ->
  forall e a', r = (Raised e, a') ->
  exists toks b, passes a toks b /\ in_bounds b = true /\ loop_body b = Raise e a'.
Proof.
  induction 1 as [a B|a a' B L|a e0 a' B L|a a1 r B L H IH]; intros e a2 E.
  - discriminate.
  - discriminate.
  - assert (e0 = e) as -> by congruence.
    assert (a' = a2) as -> by congruence.
    exists [], a.
    split; [constructor|]. split; assumption.
  - destruct (IH e a2 E) as (toks & b & P & Bb & Lb).
    apply loop_body_continue_inv in L as (B2 & l & c & N & ->).
    exists (l :: toks), b.
    split; [apply (passes_cons a l c); assumption|]. split; assumption.
Qed.

(** ** The exception *)

(** C8: [parse] raises [UnknownLexemeException] exactly when the loop,
    after some passes that each matched and appended a token, is at the
    head of the loop with the cursor in bounds, the cursor is still in
    bounds after [skip_spaces], no static definition matches there and no
    dynamic pattern is found at or after that offset. The exception
    carries that offset, and [lexemes] then holds exactly the tokens of
    the passes made before. *)
Theorem unknown_lexeme_iff (s : str) (p : nat) (toks : list Lexeme.t) :
  (exists a', parse (init s) = Some (Raised (unknown_lexeme p), a') /\
              lexemes a' = toks)
  <->
  (exists a, passes (init s) toks a /\ in_bounds a = true /\
     let b := skip_spaces a in
     in_bounds b = true /\
     Forall (fun d => static_match d b = false) static_lexeme_definitions /\
     Forall (fun d => search (dynamic_representation d) (source b) (offset b) = None)
            dynamic_lexeme_definitions /\
     offset b = p).
Proof.
  split.
  - intros (a' & P & L). apply parse_runs in P.
    destruct (runs_raised_passes _ _ P _ _ eq_refl) as (toks' & a & Pa & B & R).
    apply loop_body_raise in R as (B2 & N & -> & E).
    apply next_lexeme_none in N as (_ & Hs & Hd).
    assert (toks' = toks) as ->.
    { apply passes_lexemes in Pa. simpl in Pa.
      rewrite <- L, skip_spaces_lexemes. symmetry; exact Pa. }
    exists a. cbv zeta. injection E as ->. auto 10.
  - intros (a & Pa & B & B2 & Hs & Hd & Hp). cbv zeta in *.
    exists (skip_spaces a). split.
    + apply parse_runs. apply (passes_runs _ _ _ _ Pa).
      rewrite <- Hp. apply runs_raise; [exact B|].
      apply loop_body_raise. split; [exact B2|]. split; [|auto].
      apply next_lexeme_none. auto.
    + rewrite skip_spaces_lexemes. apply passes_lexemes in Pa. exact Pa.
Qed.

(** ** Monotone cursor and termination *)

(** C10: [skip_spaces] never moves the cursor back; a matcher that finds
    nothing leaves it where it is and one that returns a token moves it
    forward by at least one character; a pass of the loop that appends a
    token therefore leaves the cursor strictly further, and every other
    pass ends the run, not before where it started. So [parse] ends on
    every analyzer state, within [len(source)] passes. *)
Theorem cursor_monotone_and_parse_terminates :
  (forall a, offset a <= offset (skip_spaces a)) /\
  (forall a l a', process_static_lexeme a = (Some l, a') -> offset a + 1 <= offset a') /\
  (forall a a', process_static_lexeme a = (None, a') -> offset a' = offset a) /\
  (forall a l a', process_dynamic_lexeme a = (Some l, a') -> offset a + 1 <= offset a') /\
  (forall a a', process_dynamic_lexeme a = (None, a') -> offset a' = offset a) /\
  (forall a a', loop_body a = Continue a' ->
     offset a + 1 <= offset a' /\ exists l, lexemes a' = lexemes a ++ [l]) /\
  (forall a a', loop_body a = Break a' ->
     offset a <= offset a' /\ lexemes a' = lexemes a) /\
  (forall a e a', loop_body a = Raise e a' ->
     offset a <= offset a' /\ lexemes a' = lexemes a) /\
  (forall a, exists r, parse a = Some r /\ offset a <= offset (snd r)).
Proof.
  split; [exact skip_spaces_offset|].
  split. { intros a l a' H. apply process_static_some_offset in H. lia. }
  split. { intros a a' H. apply process_static_none in H. congruence. }
  split. { intros a l a' H. apply process_dynamic_some in H. lia. }
  split. { intros a a' H. apply dynamic_loop_none in H as [-> _]. reflexivity. }
  split. { intros a a' H. apply loop_body_continue in H as (Ho & _ & Hl).
           split; [lia|exact Hl]. }
  split. { intros a a' H. apply loop_body_break in H as [-> _].
           split; [apply skip_spaces_offset|reflexivity]. }
  split. { intros a e a' H. apply loop_body_raise in H as (_ & _ & -> & _).
           split; [apply skip_spaces_offset|reflexivity]. }
  intros a. destruct (parse_loop_total (length (source a)) a) as [r E]; [lia|].
  exists r. split; [exact E|].
  apply parse_runs in E. apply runs_offset in E. tauto.
Qed.

(** ** Keyword boundary *)

Lemma keyword_kinds_flagged :
  Forall (fun d => is_keyword_kind (static_type d) = is_keyword d)
         static_lexeme_definitions.
Proof. repeat constructor. Qed.

(** C5: on ["Forecast = 1"] the analyzer yields an [Identifier] token with
    text [Forecast] and no [For] token. In general, when a keyword
    definition of the table matches at the cursor and the character right
    after the matched span is alphanumeric or an underscore, the static
    matcher goes on with the definitions that follow; so a keyword token
    that [process_static_lexeme] returns is never followed by such a
    character. *)
Theorem keyword_boundary :
  (result_of "Forecast = 1" =
     Some (Returned, [Lexeme.mk Identifier (lit "Forecast") 8 8;
                      Lexeme.mk Assign (lit "=") 10 1;
                      Lexeme.mk Number (lit "1") 12 1])) /\
  (forall d defs a,
     In d static_lexeme_definitions -> is_keyword d = true ->
     let n := length (static_representation d) in
     slice (source a) (offset a) (offset a + n) = static_representation d ->
     offset a + n < length (source a) ->
     char_at (source a) (offset a + n) = ch "_" \/
       isalnum (char_at (source a) (offset a + n)) = true ->
     static_loop (d :: defs) a = static_loop defs a) /\
  (forall a l a',
     process_static_lexeme a = (Some l, a') ->
     is_keyword_kind (Lexeme.lexeme_type l) = true ->
     offset a' < length (source a) ->
     char_at (source a) (offset a') <> ch "_" /\
     isalnum (char_at (source a) (offset a')) = false).
Proof.
  split; [vm_compute; reflexivity|]. split.
  - intros d defs a _ K n _ Hlt Hc. subst n. cbn [static_loop].
    destruct (_ || _); [reflexivity|].
    apply Nat.ltb_lt in Hlt. rewrite Hlt, K.
    replace (Ascii.eqb _ _ || isalnum _) with true; [reflexivity|].
    symmetry; apply orb_true_iff.
    destruct Hc as [Hc|Hc]; [left; apply Ascii.eqb_eq; exact Hc|right; exact Hc].
  - intros a l a' H K Hlt.
    apply process_static_some in H as (d & Hin & M & -> & ->).
    pose proof keyword_kinds_flagged as F. rewrite Forall_forall in F.
    simpl in K, Hlt |- *. rewrite (F d Hin) in K.
    unfold static_match in M. apply andb_true_iff in M as [_ M].
    apply Nat.ltb_lt in Hlt. rewrite Hlt, K in M. simpl in M.
    apply negb_true_iff, orb_false_iff in M as [M1 M2].
    split; [|exact M2]. apply Ascii.eqb_neq; exact M1.
Qed.

Lemma keyword_boundary_witness :
  (let a := init (lit "Forecast = 1") in
   let d := StaticLexemeDefinition_ For true in
   static_loop (d :: []) a = static_loop [] a) /\
  (let a := init (lit "For x") in
   char_at (source a) 3 <> ch "_" /\ isalnum (char_at (source a) 3) = false).
Proof.
  destruct keyword_boundary as (_ & H2 & H3). split.
  - apply (H2 (StaticLexemeDefinition_ For true) [] (init (lit "Forecast = 1"))).
    + vm_compute; tauto.
    + reflexivity.
    + reflexivity.
    + vm_compute; lia.
    + right; reflexivity.
  - apply (H3 (init (lit "For x")) (Lexeme.mk For (lit "For") 3 3)
              (LexicalAnalyzer.mk (lit "For x") 3 [])).
    + vm_compute; reflexivity.
    + reflexivity.
    + vm_compute; lia.
Defined.

(** ** Scenarios *)

(** C7: ["Dim count = 0"] is analyzed without an exception into the four
    tokens [Dim], [Identifier] with text [count], [Assign] and [Number]
    with text [0], in that order. *)
Theorem dim_count_scenario :
  exists toks,
    result_of "Dim count = 0" = Some (Returned, toks) /\
    map kind_text toks =
      [(Dim, "Dim"); (Identifier, "count"); (Assign, "="); (Number, "0")]%string.
Proof. eexists; split; vm_compute; reflexivity. Qed.

(** C6: ["0"] is analyzed into the single token [Number] with text [0];
    ["007"] is analyzed into three [Number] tokens with texts [0], [0]
    and [7], none of which covers the three characters. *)
Theorem number_literal_policy :
  (exists toks,
     result_of "0" = Some (Returned, toks) /\
     map kind_text toks = [(Number, "0"%string)]) /\
  (exists toks,
     result_of "007" = Some (Returned, toks) /\
     map kind_text toks =
       [(Number, "0"); (Number, "0"); (Number, "7")]%string /\
     Forall (fun l => Lexeme.length l = 1) toks).
Proof.
  split; eexists; repeat split; try (vm_compute; reflexivity).
  vm_compute. repeat constructor.
Qed.

(** ** Where the code departs from the specification *)

(** C1: the offset stored in a token is the cursor after it has been
    advanced, so the span it describes is not the text of the token: on
    ["Dim x"] the token [Dim] has offset 3 and length 3, and the token
    [x] has offset 5 and length 1. Every token of either matcher is built
    with the advanced cursor. *)
Theorem token_offset_is_cursor_after_advance :
  result_of "Dim x" =
    Some (Returned, [Lexeme.mk Dim (lit "Dim") 3 3;
                     Lexeme.mk Identifier (lit "x") 5 1]) /\
  span_ok (lit "Dim x") (Lexeme.mk Dim (lit "Dim") 3 3) = false /\
  span_ok (lit "Dim x") (Lexeme.mk Identifier (lit "x") 5 1) = false /\
  (forall a l a', next_lexeme a = (Some l, a') ->
     Lexeme.offset l = offset a' /\ offset a < offset a').
Proof.
  repeat split; try (vm_compute; reflexivity);
    apply next_lexeme_some in H; tauto.
Qed.

(** C2: on ["Dim x @ 1"] no exception is raised: at offset 6 the number
    pattern is found further on, at offset 8, the cursor moves by one
    character only, and the same [1] is matched a second time. *)
Theorem dim_x_at_1_returns :
  result_of "Dim x @ 1" =
    Some (Returned, [Lexeme.mk Dim (lit "Dim") 3 3;
                     Lexeme.mk Identifier (lit "x") 5 1;
                     Lexeme.mk Number (lit "1") 7 1;
                     Lexeme.mk Number (lit "1") 9 1]).
Proof. vm_compute; reflexivity. Qed.

(** C3: on ["If x > 0 Then"] no exception is raised: at offset 5 the
    identifier pattern is found further on, at [Then], which is matched
    twice, and the [0] is never a token. *)
Theorem if_x_gt_0_then_returns :
  result_of "If x > 0 Then" =
    Some (Returned, [Lexeme.mk If (lit "If") 2 2;
                     Lexeme.mk Identifier (lit "x") 4 1;
                     Lexeme.mk Identifier (lit "Then") 9 4;
                     Lexeme.mk Identifier (lit "Then") 13 4]).
Proof. vm_compute; reflexivity. Qed.

(** C4: [Sub] and [Next] have no entry in [static_lexeme_definitions] and
    are analyzed as identifiers; [AndAlso] and [OrElse] come after [And]
    and [Or] in the table and are never matched. *)
Theorem catalog_literals_not_reproduced :
  ~ In Sub (map static_type static_lexeme_definitions) /\
  ~ In Next (map static_type static_lexeme_definitions) /\
  (exists toks,
     result_of "Sub Next" = Some (Returned, toks) /\
     map kind_text toks = [(Identifier, "Sub"); (Identifier, "Next")]%string) /\
  (exists toks,
     result_of "AndAlso OrElse" = Some (Returned, toks) /\
     map kind_text toks =
       [(And, "And"); (Identifier, "Also"); (Or, "Or"); (Else, "Else")]%string).
Proof.
  split; [|split; [|split]].
  - simpl. intuition discriminate.
  - simpl. intuition discriminate.
  - eexists; split; vm_compute; reflexivity.
  - eexists; split; vm_compute; reflexivity.
Qed.

(** ** The rest of the catalogue *)

Lemma str_eqb_eq (x y : str) : str_eqb x y = true <-> x = y.
Proof.
  unfold str_eqb. destruct (list_eq_dec ascii_dec x y); split; congruence.
Qed.

Lemma starts_with_firstn (sub s : str) :
  starts_with sub s = true <-> firstn (length sub) s = sub.
Proof.
  revert s; induction sub as [|x sub IH]; intros s; simpl.
  - tauto.
  - destruct s as [|y s]; [split; discriminate|].
    rewrite andb_true_iff, Ascii.eqb_eq, IH. split.
    + intros [-> ->]. reflexivity.
    + intros H; injection H as -> H. rewrite H. auto.
Qed.

Lemma starts_with_length (sub s : str) :
  starts_with sub s = true -> length sub <= length s.
Proof.
  revert s; induction sub as [|x sub IH]; intros s; simpl; [lia|].
  destruct s as [|y s]; [discriminate|].
  intros H. apply andb_true_iff in H as [_ H]. apply IH in H. simpl; lia.
Qed.

Lemma starts_with_app (sub tail : str) : starts_with sub (sub ++ tail) = true.
Proof.
  induction sub as [|x sub IH]; simpl; [reflexivity|].
  rewrite Ascii.eqb_refl. exact IH.
Qed.

(** With [end - start = len(rep)], [find] can only answer [start] or -1. *)
Lemma find_at_cursor (s rep : str) (off : nat) :
  off + length rep <= length s ->
  (find s rep off (off + length rep) =? -1)%Z = negb (starts_with rep (skipn off s)).
Proof.
  intros Hle. unfold find.
  rewrite Nat.min_l by exact Hle.
  rewrite Nat.leb_refl, Nat.sub_diag. cbn [find_scan]. unfold slice.
  replace (off + length rep - off) with (length rep) by lia.
  destruct (starts_with rep (skipn off s)) eqn:W.
  - apply starts_with_firstn in W. rewrite W.
    rewrite (proj2 (str_eqb_eq rep rep) eq_refl). simpl.
    apply Z.eqb_neq. lia.
  - destruct (str_eqb _ rep) eqn:E; [|reflexivity].
    apply str_eqb_eq, starts_with_firstn in E. congruence.
Qed.

Lemma skipn_cons_nth (s : str) (i : nat) :
  i < length s -> skipn i s = char_at s i :: skipn (S i) s.
Proof.
  revert i; induction s as [|x s IH]; intros i Hi; simpl in Hi; [lia|].
  destruct i as [|i]; [reflexivity|].
  cbn [skipn]. rewrite IH by lia. reflexivity.
Qed.

Lemma static_match_suffix (d : StaticLexemeDefinition) (a : LexicalAnalyzer.t) :
  offset a <= length (source a) ->
  static_match d a = suffix_match d (skipn (offset a) (source a)).
Proof.
  intros Hoff. unfold static_match, suffix_match.
  set (n := length (static_representation d)).
  destruct (Nat.ltb_spec (length (source a)) (offset a + n)) as [Hlt|Hle].
  - simpl. symmetry.
    destruct (starts_with _ _) eqn:W; [|reflexivity].
    apply starts_with_length in W. rewrite length_skipn in W. fold n in W. lia.
  - rewrite find_at_cursor by exact Hle. cbn [orb]. rewrite negb_involutive.
    f_equal. f_equal. rewrite skipn_skipn, (Nat.add_comm n).
    destruct (Nat.ltb_spec (offset a + n) (length (source a))) as [Hlt|Hge].
    + rewrite (skipn_cons_nth _ _ Hlt). reflexivity.
    + rewrite skipn_all2 by exact Hge. cbn [andb]. symmetry; apply andb_false_r.
Qed.

Lemma find_ext_eq {A : Type} (f g : A -> bool) (l : list A) :
  (forall x, f x = g x) -> List.find f l = List.find g l.
Proof.
  intros H; induction l as [|x l IH]; simpl; [reflexivity|].
  rewrite H, IH. reflexivity.
Qed.

Lemma is_space_cases (c : ascii) :
  is_space c = true -> c = chr 32 \/ c = chr 10 \/ c = chr 13 \/ c = chr 9.
Proof.
  unfold is_space, space_chars; cbn [existsb].
  rewrite !orb_true_iff, !Ascii.eqb_eq. intuition discriminate.
Qed.

(** At a literal that is not shadowed and is followed by whitespace or by
    the end of the text, the first definition that matches is its own. *)
Lemma first_match_is_own (d : StaticLexemeDefinition) (tail : str) :
  In d static_lexeme_definitions -> shadowed (static_type d) = false ->
  tail = [] \/ (exists c t, tail = c :: t /\ is_space c = true) ->
  List.find (fun d' => suffix_match d' (static_representation d ++ tail))
            static_lexeme_definitions = Some d.
Proof.
  intros Hin Hs Htail.
  assert (Hc : tail = [] \/ exists c t, tail = c :: t /\
                 (c = chr 32 \/ c = chr 10 \/ c = chr 13 \/ c = chr 9)).
  { destruct Htail as [->|(c & t & -> & Hc)]; [left; reflexivity|].
    right; exists c, t; split; [reflexivity|apply is_space_cases; exact Hc]. }
  clear Htail.
  unfold static_lexeme_definitions in Hin; cbn [In] in Hin.
  repeat (destruct Hin as [<-|Hin]; [try discriminate Hs;
    destruct Hc as [->|(c & t & -> & [->|[->|[->| ->]]])];
    vm_compute; reflexivity|]).
  contradiction.
Qed.

Lemma process_static_own (a : LexicalAnalyzer.t) (d : StaticLexemeDefinition)
    (tail : str) :
  offset a <= length (source a) ->
  skipn (offset a) (source a) = static_representation d ++ tail ->
  In d static_lexeme_definitions -> shadowed (static_type d) = false ->
  tail = [] \/ (exists c t, tail = c :: t /\ is_space c = true) ->
  process_static_lexeme a =
    (Some (static_lexeme d a),
     set_offset a (offset a + length (static_representation d))).
Proof.
  intros Hoff Hsuf Hin Hs Htail.
  unfold process_static_lexeme. rewrite static_loop_find.
  rewrite (find_ext_eq _ (fun d' => suffix_match d' (static_representation d ++ tail))).
  - rewrite (first_match_is_own d tail Hin Hs Htail). reflexivity.
  - intros d'. rewrite (static_match_suffix d' a Hoff), Hsuf. reflexivity.
Qed.

Lemma skip_spaces_from_app (ws tail : str) (off : nat) :
  whitespace ws ->
  match tail with c :: _ => is_space c = false | [] => True end ->
  skip_spaces_from (ws ++ tail) off = off + length ws.
Proof.
  unfold whitespace. revert off; induction ws as [|c ws IH]; intros off Hws Ht.
  - rewrite Nat.add_0_r. destruct tail as [|c t]; [reflexivity|].
    simpl. rewrite Ht. reflexivity.
  - cbn [forallb] in Hws. apply andb_true_iff in Hws as [Hc Hws].
    cbn [app skip_spaces_from length]. rewrite Hc, IH by assumption. lia.
Qed.

Lemma skip_spaces_from_all (ws : str) (off : nat) :
  whitespace ws -> skip_spaces_from ws off = off + length ws.
Proof.
  intros H. pose proof (skip_spaces_from_app ws [] off H I) as E.
  rewrite app_nil_r in E. exact E.
Qed.

Lemma literals_start_with_no_space :
  Forall (fun d => match static_representation d with
                   | c :: _ => is_space c = false
                   | [] => False
                   end) static_lexeme_definitions.
Proof. repeat constructor. Qed.

Lemma skipn_length_app (pre rest : str) : skipn (length pre) (pre ++ rest) = rest.
Proof. induction pre as [|x pre IH]; simpl; [reflexivity|exact IH]. Qed.

Lemma skip_spaces_mk (src : str) (off : nat) (lex : list Lexeme.t) :
  skip_spaces (LexicalAnalyzer.mk src off lex) =
  LexicalAnalyzer.mk src (skip_spaces_from (skipn off src) off) lex.
Proof. reflexivity. Qed.

Lemma runs_layout (items : list (StaticLexemeDefinition * str)) :
  forall (pre ws : str) (lex : list Lexeme.t),
  whitespace ws -> separated items ->
  exists a',
    runs (LexicalAnalyzer.mk (pre ++ ws ++ layout items) (length pre) lex)
         (Returned, a') /\
    map lexeme_kind_text (lexemes a') =
      map lexeme_kind_text lex ++ map definition_kind_text (map fst items).
Proof.
  induction items as [|[d sep] rest IH]; intros pre ws lex Hws Hsep.
  - cbn [layout map]. rewrite !app_nil_r.
    set (a := LexicalAnalyzer.mk (pre ++ ws) (length pre) lex).
    assert (Hskip : skip_spaces a = LexicalAnalyzer.mk (pre ++ ws) (length pre + length ws) lex).
    { unfold a. rewrite skip_spaces_mk, skipn_length_app.
      rewrite skip_spaces_from_all by exact Hws. reflexivity. }
    assert (Hout : in_bounds (skip_spaces a) = false).
    { rewrite Hskip. unfold in_bounds; cbn [offset source].
      apply Nat.ltb_ge. rewrite length_app. lia. }
    destruct (in_bounds a) eqn:B.
    + exists (skip_spaces a). split.
      * apply runs_break; [exact B|]. rewrite loop_body_next, Hout. reflexivity.
      * rewrite Hskip. reflexivity.
    + exists a. split; [apply runs_out; exact B|reflexivity].
  - destruct Hsep as (Hin & Hsh & Hwsep & Hlast & Hrest).
    cbn [layout].
    set (rep := static_representation d) in *.
    set (src := pre ++ ws ++ rep ++ sep ++ layout rest).
    set (a := LexicalAnalyzer.mk src (length pre) lex).
    set (a1 := LexicalAnalyzer.mk src (length pre + length ws) lex).
    pose proof static_representation_nonempty as Hne.
    rewrite Forall_forall in Hne. specialize (Hne d Hin). fold rep in Hne.
    pose proof literals_start_with_no_space as Hns.
    rewrite Forall_forall in Hns. specialize (Hns d Hin). fold rep in Hns.
    assert (Hlen : length src =
              length pre + length ws + length rep + length (sep ++ layout rest)).
    { unfold src. rewrite !length_app. lia. }
    assert (B : in_bounds a = true).
    { unfold in_bounds, a; cbn [offset source]. apply Nat.ltb_lt. lia. }
    assert (Hskip : skip_spaces a = a1).
    { unfold a, a1. rewrite skip_spaces_mk. unfold src at 2.
      rewrite skipn_length_app, skip_spaces_from_app; [reflexivity|exact Hws|].
      destruct rep as [|c rep']; [contradiction|exact Hns]. }
    assert (B1 : in_bounds a1 = true).
    { unfold in_bounds, a1; cbn [offset source]. apply Nat.ltb_lt. lia. }
    assert (Hsuf : skipn (offset a1) (source a1) = rep ++ sep ++ layout rest).
    { unfold a1; cbn [offset source]. unfold src.
      rewrite <- length_app, app_assoc. apply skipn_length_app. }
    assert (Htail : sep ++ layout rest = [] \/
              exists c t, sep ++ layout rest = c :: t /\ is_space c = true).
    { destruct sep as [|c sep'].
      - left. rewrite (Hlast eq_refl). reflexivity.
      - right. exists c, (sep' ++ layout rest). split; [reflexivity|].
        unfold whitespace in Hwsep. cbn [forallb] in Hwsep.
        apply andb_true_iff in Hwsep. tauto. }
    assert (Hst : process_static_lexeme a1 =
              (Some (static_lexeme d a1), set_offset a1 (offset a1 + length rep))).
    { apply (process_static_own a1 d (sep ++ layout rest)); auto.
      unfold a1; cbn [offset source]. lia. }
    assert (Hnext : next_lexeme a1 =
              (Some (static_lexeme d a1), set_offset a1 (offset a1 + length rep))).
    { unfold next_lexeme. rewrite Hst. reflexivity. }
    destruct (IH (pre ++ ws ++ rep) sep (lex ++ [static_lexeme d a1]) Hwsep Hrest)
      as (a' & Hruns & Hmap).
    exists a'. split.
    + apply (runs_continue a
               (append (set_offset a1 (offset a1 + length rep)) (static_lexeme d a1)));
        [exact B| |].
      * rewrite loop_body_next, Hskip, B1, Hnext. reflexivity.
      * replace (append _ _) with
          (LexicalAnalyzer.mk ((pre ++ ws ++ rep) ++ sep ++ layout rest)
             (length (pre ++ ws ++ rep)) (lex ++ [static_lexeme d a1])); [exact Hruns|].
        unfold append, set_offset, a1, src; cbn [offset source lexemes].
        rewrite !length_app, <- !app_assoc. f_equal. lia.
    + rewrite Hmap, map_app, <- app_assoc. reflexivity.
Qed.

(** X16: For a text made of literals of the table other than [AndAlso] and
    [OrElse], with whitespace between them and possibly around them,
    [parse] returns and the tokens are those literals in order, each with
    the kind of its definition. *)
Theorem catalog_literals_reproduced (ws0 : str)
    (items : list (StaticLexemeDefinition * str)) :
  whitespace ws0 -> separated items ->
  exists a,
    parse (init (ws0 ++ layout items)) = Some (Returned, a) /\
    map lexeme_kind_text (lexemes a) = map definition_kind_text (map fst items).
Proof.
  intros Hws Hsep.
  destruct (runs_layout items [] ws0 [] Hws Hsep) as (a & Hruns & Hmap).
  exists a. split; [|exact Hmap].
  apply parse_runs. exact Hruns.
Qed.

Lemma catalog_literals_reproduced_witness :
  exists a,
    parse (init (lit " " ++ layout [(StaticLexemeDefinition_ Dim true, lit "  ");
                                    (StaticLexemeDefinition_ Plus false, lit " ");
                                    (StaticLexemeDefinition_ Mod false, [])]))
      = Some (Returned, a) /\
    map lexeme_kind_text (lexemes a) =
      [(Dim, lit "Dim"); (Plus, lit "+"); (Mod, lit "Mod")].
Proof.
  apply (catalog_literals_reproduced (lit " ")
           [(StaticLexemeDefinition_ Dim true, lit "  ");
            (StaticLexemeDefinition_ Plus false, lit " ");
            (StaticLexemeDefinition_ Mod false, [])]).
  - reflexivity.
  - vm_compute. intuition discriminate.
Defined.

(** * Further properties of the analyzer *)

(** ** What the two patterns match *)

Lemma take_drop_while (p : ascii -> bool) (s : str) :
  s = take_while p s ++ drop_while p s.
Proof.
  induction s as [|c s IH]; simpl; [reflexivity|].
  destruct (p c); simpl; [f_equal; exact IH|reflexivity].
Qed.

Lemma take_while_all (p : ascii -> bool) (s : str) :
  forallb p (take_while p s) = true.
Proof.
  induction s as [|c s IH]; simpl; [reflexivity|].
  destruct (p c) eqn:E; simpl; [rewrite E; exact IH|reflexivity].
Qed.

Lemma drop_while_stops (p : ascii -> bool) (s : str) : stops p (drop_while p s).
Proof.
  induction s as [|c s IH]; simpl; [exact I|].
  destruct (p c) eqn:E; [exact IH|exact E].
Qed.

Lemma drop_while_length (p : ascii -> bool) (s : str) :
  length s = length (take_while p s) + length (drop_while p s).
Proof. rewrite (take_drop_while p s) at 1. apply length_app. Qed.

(** A starred class consumes the longest run of characters of the class. *)
Lemma star_cls_drop (items : list class_item) (n : nat) :
  forall s, length s <= n ->
  star_loop (match_here (Cls items)) Some n s = Some (drop_while (in_class items) s).
Proof.
  induction n as [|n IH]; intros s Hn.
  - destruct s; [reflexivity|simpl in Hn; lia].
  - destruct s as [|x s']; [reflexivity|].
    cbn [star_loop match_here drop_while].
    destruct (in_class items x); [|reflexivity].
    replace (length s' <? length (x :: s')) with true
      by (symmetry; apply Nat.ltb_lt; simpl; lia).
    rewrite IH by (simpl in Hn; lia). reflexivity.
Qed.

Lemma match_identifier (s : str) :
  match_here identifier_pattern s Some =
  match s with
  | x :: s' => if ident_start x then Some (drop_while ident_char s') else None
  | [] => None
  end.
Proof.
  unfold identifier_pattern. cbn [match_here].
  destruct s as [|x s']; [reflexivity|].
  fold (ident_start x). destruct (ident_start x); [|reflexivity].
  apply star_cls_drop. lia.
Qed.

Lemma match_number (s : str) :
  match_here number_pattern s Some =
  match s with
  | x :: s' =>
      if Ascii.eqb x (ch "0") then Some s'
      else if nonzero_digit x then Some (drop_while digit s') else None
  | [] => None
  end.
Proof.
  unfold number_pattern. cbn [match_here].
  destruct s as [|x s']; [reflexivity|].
  destruct (Ascii.eqb x (ch "0")); [reflexivity|].
  fold (nonzero_digit x). destruct (nonzero_digit x); [|reflexivity].
  apply star_cls_drop. lia.
Qed.

Lemma digit_cases (c : ascii) :
  digit c = Ascii.eqb c (ch "0") || nonzero_digit c.
Proof. destruct c as [[] [] [] [] [] [] [] []]; reflexivity. Qed.

Lemma digit_ident_char (c : ascii) : digit c = true -> ident_char c = true.
Proof. destruct c as [[] [] [] [] [] [] [] []]; simpl; auto. Qed.

Lemma ident_start_ident_char (c : ascii) : ident_start c = true -> ident_char c = true.
Proof. destruct c as [[] [] [] [] [] [] [] []]; simpl; auto. Qed.

Lemma ident_char_cases (c : ascii) : ident_char c = ident_start c || digit c.
Proof. destruct c as [[] [] [] [] [] [] [] []]; reflexivity. Qed.

(** ** Where [search] finds a pattern *)

Section Search.

Variable r : regex.
Variable start : ascii -> bool.
Hypothesis match_nil : match_here r [] Some = None.
Hypothesis match_start :
  forall x s', match_here r (x :: s') Some = None <-> start x = false.

Lemma search_at_some (s : str) :
  forall pos p q, search_at r s pos = Some (p, q) ->
  exists junk s1 rest,
    s = junk ++ s1 /\ none_of start junk /\ p = pos + length junk /\
    match_here r s1 Some = Some rest /\ q = p + (length s1 - length rest).
Proof.
  induction s as [|x s IH]; intros pos p q; cbn [search_at].
  - rewrite match_nil. discriminate.
  - destruct (match_here r (x :: s) Some) as [rest|] eqn:M.
    + intros H. assert (p = pos) by congruence.
      assert (q = pos + (length (x :: s) - length rest)) by congruence. subst.
      exists [], (x :: s), rest. rewrite Nat.add_0_r.
      repeat split; auto.
    + intros H. apply IH in H as (junk & s1 & rest & -> & Hj & -> & Hm & ->).
      exists (x :: junk), s1, rest. cbn [length app].
      split; [reflexivity|]. split.
      * unfold none_of in *. cbn [forallb].
        rewrite (proj1 (match_start x _) M). exact Hj.
      * split; [lia|]. split; [exact Hm|lia].
Qed.

Lemma search_at_none (s : str) :
  forall pos, search_at r s pos = None <-> none_of start s.
Proof.
  unfold none_of.
  induction s as [|x s IH]; intros pos; cbn [search_at forallb].
  - rewrite match_nil. tauto.
  - destruct (match_here r (x :: s) Some) as [rest|] eqn:M.
    + split; [discriminate|]. intros H.
      apply andb_true_iff in H as [H _]. apply negb_true_iff in H.
      apply match_start with (s' := s) in H. congruence.
    + rewrite (proj1 (match_start x s) M). cbn [negb andb]. apply IH.
Qed.

End Search.

Lemma identifier_match_start (x : ascii) (s' : str) :
  match_here identifier_pattern (x :: s') Some = None <-> ident_start x = false.
Proof.
  rewrite match_identifier. destruct (ident_start x); split; congruence.
Qed.

Lemma number_match_start (x : ascii) (s' : str) :
  match_here number_pattern (x :: s') Some = None <-> digit x = false.
Proof.
  rewrite match_number, digit_cases.
  destruct (Ascii.eqb x (ch "0")), (nonzero_digit x); split; simpl; congruence.
Qed.

Lemma firstn_length_app (l r : str) : firstn (length l) (l ++ r) = l.
Proof. induction l as [|x l IH]; simpl; [reflexivity|f_equal; exact IH]. Qed.

Lemma search_none (r : regex) (start : ascii -> bool) (source : str) (pos : nat) :
  match_here r [] Some = None ->
  (forall x s', match_here r (x :: s') Some = None <-> start x = false) ->
  pos <= length source ->
  (search r source pos = None <-> none_of start (skipn pos source)).
Proof.
  intros Hnil Hstart Hpos. unfold search.
  rewrite (proj2 (Nat.leb_le _ _) Hpos).
  apply (search_at_none r start Hnil Hstart).
Qed.

Lemma slice_after_junk (source : str) (pos : nat) (junk : str) (x : ascii)
    (body rest : str) :
  skipn pos source = junk ++ x :: body ++ rest ->
  slice source (pos + length junk) (pos + length junk + S (length body))
  = x :: body.
Proof.
  intros Hs. unfold slice.
  replace (pos + length junk + S (length body) - (pos + length junk))
    with (length (x :: body)) by (cbn [length]; lia).
  rewrite (Nat.add_comm pos), <- skipn_skipn, Hs, skipn_length_app.
  apply (firstn_length_app (x :: body)).
Qed.

(** A hit of the identifier pattern: the first letter or underscore at or
    after [pos], with all the letters, digits and underscores after it. *)
Lemma search_identifier_some (source : str) (pos p q : nat) :
  search identifier_pattern source pos = Some (p, q) ->
  exists junk x body rest,
    skipn pos source = junk ++ x :: body ++ rest /\
    none_of ident_start junk /\ ident_start x = true /\
    forallb ident_char body = true /\ stops ident_char rest /\
    p = pos + length junk /\ q = p + S (length body) /\
    slice source p q = x :: body.
Proof.
  unfold search. destruct (pos <=? length source) eqn:L; [|discriminate].
  intros H.
  apply (search_at_some identifier_pattern ident_start) in H
    as (junk & s1 & rest0 & Hs & Hj & -> & Hm & ->);
    [|rewrite match_identifier; reflexivity|exact identifier_match_start].
  rewrite match_identifier in Hm.
  destruct s1 as [|x s']; [discriminate|].
  destruct (ident_start x) eqn:Hx; [|discriminate].
  assert (rest0 = drop_while ident_char s') as -> by congruence.
  pose proof (take_drop_while ident_char s') as E.
  assert (Hs' : skipn pos source =
                junk ++ x :: take_while ident_char s' ++ drop_while ident_char s')
    by (rewrite <- E; exact Hs).
  assert (Hq : length (x :: s') - length (drop_while ident_char s')
               = S (length (take_while ident_char s'))).
  { cbn [length]. rewrite (drop_while_length ident_char s') at 1. lia. }
  rewrite Hq.
  exists junk, x, (take_while ident_char s'), (drop_while ident_char s').
  split; [exact Hs'|]. split; [exact Hj|]. split; [exact Hx|].
  split; [apply take_while_all|]. split; [apply drop_while_stops|].
  split; [reflexivity|]. split; [reflexivity|].
  apply (slice_after_junk _ _ _ _ _ _ Hs').
Qed.

(** A hit of the number pattern: the first digit at or after [pos]; a 0
    alone, or a digit from 1 to 9 with all the digits after it. *)
Lemma search_number_some (source : str) (pos p q : nat) :
  search number_pattern source pos = Some (p, q) ->
  exists junk x body rest,
    skipn pos source = junk ++ x :: body ++ rest /\
    none_of digit junk /\
    ((x = ch "0" /\ body = []) \/
     (nonzero_digit x = true /\ forallb digit body = true /\ stops digit rest)) /\
    p = pos + length junk /\ q = p + S (length body) /\
    slice source p q = x :: body.
Proof.
  unfold search. destruct (pos <=? length source) eqn:L; [|discriminate].
  intros H.
  apply (search_at_some number_pattern digit) in H
    as (junk & s1 & rest0 & Hs & Hj & -> & Hm & ->);
    [|rewrite match_number; reflexivity|exact number_match_start].
  rewrite match_number in Hm.
  destruct s1 as [|x s']; [discriminate|].
  destruct (Ascii.eqb x (ch "0")) eqn:H0.
  - assert (rest0 = s') as -> by congruence.
    apply Ascii.eqb_eq in H0.
    replace (length (x :: s') - length s') with (S (length (@nil ascii)))
      by (cbn [length]; lia).
    exists junk, x, [], s'. cbn [app].
    split; [exact Hs|]. split; [exact Hj|]. split; [left; auto|].
    split; [reflexivity|]. split; [reflexivity|].
    apply (slice_after_junk _ _ _ _ [] s' Hs).
  - destruct (nonzero_digit x) eqn:Hx; [|discriminate].
    assert (rest0 = drop_while digit s') as -> by congruence.
    pose proof (take_drop_while digit s') as E.
    assert (Hs' : skipn pos source =
                  junk ++ x :: take_while digit s' ++ drop_while digit s')
      by (rewrite <- E; exact Hs).
    assert (Hq : length (x :: s') - length (drop_while digit s')
                 = S (length (take_while digit s'))).
    { cbn [length]. rewrite (drop_while_length digit s') at 1. lia. }
    rewrite Hq.
    exists junk, x, (take_while digit s'), (drop_while digit s').
    split; [exact Hs'|]. split; [exact Hj|].
    split; [right; split; [exact Hx|split; [apply take_while_all|apply drop_while_stops]]|].
    split; [reflexivity|]. split; [reflexivity|].
    apply (slice_after_junk _ _ _ _ _ _ Hs').
Qed.

(** [process_dynamic_lexeme], with its two definitions written out. *)
Lemma process_dynamic_cases (a : LexicalAnalyzer.t) :
  process_dynamic_lexeme a =
  match search identifier_pattern (source a) (offset a) with
  | Some span =>
      (Some (Lexeme.mk Identifier (slice (source a) (fst span) (snd span))
               (offset a + (snd span - fst span)) (snd span - fst span)),
       set_offset a (offset a + (snd span - fst span)))
  | None =>
      match search number_pattern (source a) (offset a) with
      | Some span =>
          (Some (Lexeme.mk Number (slice (source a) (fst span) (snd span))
                   (offset a + (snd span - fst span)) (snd span - fst span)),
           set_offset a (offset a + (snd span - fst span)))
      | None => (None, a)
      end
  end.
Proof. reflexivity. Qed.

(** ** Tokens of the dynamic matcher *)

Lemma dynamic_identifier_shape (a a' : LexicalAnalyzer.t) (l : Lexeme.t) :
  process_dynamic_lexeme a = (Some l, a') ->
  Lexeme.lexeme_type l = Identifier ->
  exists junk x body rest,
    skipn (offset a) (source a) = junk ++ x :: body ++ rest /\
    none_of ident_start junk /\ ident_start x = true /\
    forallb ident_char body = true /\ stops ident_char rest /\
    Lexeme.lexeme_value l = x :: body /\
    Lexeme.length l = S (length body) /\
    offset a' = offset a + S (length body).
Proof.
  rewrite process_dynamic_cases.
  destruct (search identifier_pattern _ _) as [[p q]|] eqn:S1.
  - intros H _. cbn [fst snd] in H.
    apply search_identifier_some in S1
      as (junk & x & body & rest & Hs & Hj & Hx & Hb & Hr & -> & -> & Hv).
    exists junk, x, body, rest.
    assert (l = Lexeme.mk Identifier
                  (slice (source a) (offset a + length junk)
                     (offset a + length junk + S (length body)))
                  (offset a + (offset a + length junk + S (length body)
                               - (offset a + length junk)))
                  (offset a + length junk + S (length body)
                   - (offset a + length junk))) as -> by congruence.
    assert (a' = set_offset a
                   (offset a + (offset a + length junk + S (length body)
                                - (offset a + length junk)))) as -> by congruence.
    cbn [Lexeme.lexeme_value Lexeme.length set_offset offset].
    repeat split; auto; lia.
  - destruct (search number_pattern _ _) as [span|].
    + intros H T. assert (Lexeme.lexeme_type l = Number) by
        (injection H as <- _; reflexivity). congruence.
    + discriminate.
Qed.

(** X2: An [Identifier] token of [process_dynamic_lexeme] is the first
    identifier at or after the cursor, whole: it starts at the first
    letter or underscore found from the cursor on, and ends where the
    letters, digits and underscores end. The characters before it are
    passed over, and the cursor advances by the length of the token only. *)
Theorem identifier_token_shape (a a' : LexicalAnalyzer.t) (l : Lexeme.t) :
  process_dynamic_lexeme a = (Some l, a') ->
  Lexeme.lexeme_type l = Identifier ->
  exists junk x body rest,
    skipn (offset a) (source a) = junk ++ x :: body ++ rest /\
    none_of ident_start junk /\ ident_start x = true /\
    forallb ident_char body = true /\ stops ident_char rest /\
    Lexeme.lexeme_value l = x :: body /\
    Lexeme.length l = S (length body) /\
    offset a' = offset a + S (length body).
Proof. exact (dynamic_identifier_shape a a' l). Qed.

Lemma identifier_token_shape_witness :
  exists junk x body rest,
    skipn 0 (lit "> 0 Then") = junk ++ x :: body ++ rest /\
    none_of ident_start junk /\ ident_start x = true /\
    forallb ident_char body = true /\ stops ident_char rest /\
    lit "Then" = x :: body /\ 4 = S (length body) /\ 4 = 0 + S (length body).
Proof.
  apply (identifier_token_shape
           (LexicalAnalyzer.mk (lit "> 0 Then") 0 [])
           (LexicalAnalyzer.mk (lit "> 0 Then") 4 [])
           (Lexeme.mk Identifier (lit "Then") 4 4)).
  - vm_compute; reflexivity.
  - reflexivity.
Defined.

Lemma dynamic_number_shape (a a' : LexicalAnalyzer.t) (l : Lexeme.t) :
  process_dynamic_lexeme a = (Some l, a') ->
  Lexeme.lexeme_type l = Number ->
  none_of ident_start (skipn (offset a) (source a)) /\
  exists junk x body rest,
    skipn (offset a) (source a) = junk ++ x :: body ++ rest /\
    none_of digit junk /\
    ((x = ch "0" /\ body = []) \/
     (nonzero_digit x = true /\ forallb digit body = true /\ stops digit rest)) /\
    Lexeme.lexeme_value l = x :: body /\
    Lexeme.length l = S (length body) /\
    offset a' = offset a + S (length body).
Proof.
  rewrite process_dynamic_cases.
  destruct (search identifier_pattern _ _) as [span|] eqn:S1.
  - intros H T. assert (Lexeme.lexeme_type l = Identifier) by
      (injection H as <- _; reflexivity). congruence.
  - destruct (search number_pattern _ _) as [[p q]|] eqn:S2; [|discriminate].
    intros H _. cbn [fst snd] in H.
    assert (Hpos : offset a <= length (source a)).
    { unfold search in S2. destruct (offset a <=? _) eqn:L; [|discriminate].
      apply Nat.leb_le; exact L. }
    split.
    { apply (proj1 (search_none identifier_pattern ident_start _ _
                      eq_refl identifier_match_start Hpos)).
      exact S1. }
    apply search_number_some in S2
      as (junk & x & body & rest & Hs & Hj & Hx & -> & -> & Hv).
    exists junk, x, body, rest.
    assert (l = Lexeme.mk Number
                  (slice (source a) (offset a + length junk)
                     (offset a + length junk + S (length body)))
                  (offset a + (offset a + length junk + S (length body)
                               - (offset a + length junk)))
                  (offset a + length junk + S (length body)
                   - (offset a + length junk))) as -> by congruence.
    assert (a' = set_offset a
                   (offset a + (offset a + length junk + S (length body)
                                - (offset a + length junk)))) as -> by congruence.
    cbn [Lexeme.lexeme_value Lexeme.length set_offset offset].
    repeat split; auto; lia.
Qed.

(** X3: A [Number] token of [process_dynamic_lexeme] is returned only when no
    letter and no underscore is left at or after the cursor, since the
    identifier pattern is searched first. It starts at the first digit
    found from the cursor on; it is a single 0, or a digit from 1 to 9
    with all the digits that follow it. *)
Theorem number_token_shape (a a' : LexicalAnalyzer.t) (l : Lexeme.t) :
  process_dynamic_lexeme a = (Some l, a') ->
  Lexeme.lexeme_type l = Number ->
  none_of ident_start (skipn (offset a) (source a)) /\
  exists junk x body rest,
    skipn (offset a) (source a) = junk ++ x :: body ++ rest /\
    none_of digit junk /\
    ((x = ch "0" /\ body = []) \/
     (nonzero_digit x = true /\ forallb digit body = true /\ stops digit rest)) /\
    Lexeme.lexeme_value l = x :: body /\
    Lexeme.length l = S (length body) /\
    offset a' = offset a + S (length body).
Proof. exact (dynamic_number_shape a a' l). Qed.

Lemma number_token_shape_witness :
  none_of ident_start (skipn 0 (lit "@ 70")) /\
  exists junk x body rest,
    skipn 0 (lit "@ 70") = junk ++ x :: body ++ rest /\
    none_of digit junk /\
    ((x = ch "0" /\ body = []) \/
     (nonzero_digit x = true /\ forallb digit body = true /\ stops digit rest)) /\
    lit "70" = x :: body /\ 2 = S (length body) /\ 2 = 0 + S (length body).
Proof.
  apply (number_token_shape
           (LexicalAnalyzer.mk (lit "@ 70") 0 [])
           (LexicalAnalyzer.mk (lit "@ 70") 2 [])
           (Lexeme.mk Number (lit "70") 2 2)).
  - vm_compute; reflexivity.
  - reflexivity.
Defined.

(** ** [skip_spaces] *)

Lemma skip_spaces_from_spec (rest : str) :
  forall off, exists k,
    skip_spaces_from rest off = off + k /\ k <= length rest /\
    forallb is_space (firstn k rest) = true /\ stops is_space (skipn k rest).
Proof.
  induction rest as [|c rest IH]; intros off; cbn [skip_spaces_from].
  - exists 0. cbn. repeat split; lia.
  - destruct (is_space c) eqn:E.
    + destruct (IH (S off)) as (k & Hk & Hle & Hall & Hstop).
      exists (S k). cbn [firstn skipn forallb length]. rewrite E, Hall.
      repeat split; [lia|lia|exact Hstop].
    + exists 0. cbn [firstn skipn forallb stops length].
      repeat split; [lia|lia|exact E].
Qed.

Lemma skip_spaces_from_stops (rest : str) (off : nat) :
  stops is_space rest -> skip_spaces_from rest off = off.
Proof.
  destruct rest as [|c rest]; cbn [skip_spaces_from stops]; [reflexivity|].
  intros ->. reflexivity.
Qed.

Lemma skip_spaces_post (a : LexicalAnalyzer.t) :
  source (skip_spaces a) = source a /\
  lexemes (skip_spaces a) = lexemes a /\
  offset a <= offset (skip_spaces a) /\
  offset (skip_spaces a) <= Nat.max (offset a) (length (source a)) /\
  forallb is_space (slice (source a) (offset a) (offset (skip_spaces a))) = true /\
  (in_bounds (skip_spaces a) = true ->
   is_space (char_at (source a) (offset (skip_spaces a))) = false) /\
  skip_spaces (skip_spaces a) = skip_spaces a.
Proof.
  destruct a as [src off lex]. rewrite skip_spaces_mk.
  cbn [source offset lexemes].
  destruct (skip_spaces_from_spec (skipn off src) off) as (k & Hk & Hle & Hall & Hstop).
  rewrite Hk. rewrite length_skipn in Hle. rewrite skipn_skipn in Hstop.
  split; [reflexivity|]. split; [reflexivity|]. split; [lia|]. split; [lia|].
  split.
  { unfold slice. replace (off + k - off) with k by lia. exact Hall. }
  split.
  { unfold in_bounds; cbn [source offset]. intros B. apply Nat.ltb_lt in B.
    rewrite (skipn_cons_nth src (k + off)) in Hstop by lia.
    rewrite (Nat.add_comm off k). exact Hstop. }
  rewrite skip_spaces_mk. rewrite (Nat.add_comm off k) at 1.
  rewrite skip_spaces_from_stops by exact Hstop. reflexivity.
Qed.

(** X1: [skip_spaces] changes the cursor only. It moves it forward, over
    characters of [space_chars] and no others, and not beyond the end of the
    source; it stops at the end or at a character that is not in
    [space_chars]; called a second time it does nothing. *)
Theorem skip_spaces_spec (a : LexicalAnalyzer.t) :
  source (skip_spaces a) = source a /\
  lexemes (skip_spaces a) = lexemes a /\
  offset a <= offset (skip_spaces a) /\
  offset (skip_spaces a) <= Nat.max (offset a) (length (source a)) /\
  forallb is_space (slice (source a) (offset a) (offset (skip_spaces a))) = true /\
  (in_bounds (skip_spaces a) = true ->
   is_space (char_at (source a) (offset (skip_spaces a))) = false) /\
  skip_spaces (skip_spaces a) = skip_spaces a.
Proof. exact (skip_spaces_post a). Qed.

(** ** What a matched token and the cursor look like *)

Lemma static_match_fits (d : StaticLexemeDefinition) (a : LexicalAnalyzer.t) :
  static_match d a = true ->
  offset a + length (static_representation d) <= length (source a).
Proof.
  unfold static_match. intros H. apply andb_true_iff in H as [H _].
  apply negb_true_iff, orb_false_iff in H as [H _].
  apply Nat.ltb_ge in H. exact H.
Qed.

Lemma slice_length (s : str) (p q : nat) :
  q <= length s -> length (slice s p q) = q - p.
Proof.
  intros H. unfold slice. rewrite length_firstn, length_skipn. lia.
Qed.

Lemma next_lexeme_token (a b : LexicalAnalyzer.t) (l : Lexeme.t) :
  next_lexeme a = (Some l, b) ->
  source b = source a /\ lexemes b = lexemes a /\
  offset b = offset a + Lexeme.length l /\
  Lexeme.offset l = offset b /\
  offset b <= length (source a) /\
  Lexeme.length l = length (Lexeme.lexeme_value l) /\
  0 < Lexeme.length l.
Proof.
  unfold next_lexeme.
  destruct (process_static_lexeme a) as [[l1|] a2] eqn:S.
  - intros H. assert (l1 = l) as -> by congruence.
    assert (a2 = b) as -> by congruence.
    apply process_static_some in S as (d & Hin & Hm & -> & ->).
    apply static_match_fits in Hm.
    pose proof static_representation_nonempty as C.
    rewrite Forall_forall in C. specialize (C d Hin).
    cbn [static_lexeme set_offset source offset lexemes
         Lexeme.length Lexeme.offset Lexeme.lexeme_value].
    repeat split; auto.
  - apply process_static_none in S as ->. intros H.
    apply dynamic_loop_some in H as (d & [p q] & Hin & Hs & -> & ->).
    pose proof dynamic_patterns_consume as C.
    rewrite Forall_forall in C. apply (search_span _ (C d Hin)) in Hs.
    cbn [dynamic_lexeme set_offset source offset lexemes fst snd
         Lexeme.length Lexeme.offset Lexeme.lexeme_value].
    rewrite slice_length by lia.
    repeat split; auto; lia.
Qed.

Lemma token_ok_le (c1 c2 : nat) (l : Lexeme.t) :
  c1 <= c2 -> token_ok c1 l -> token_ok c2 l.
Proof. unfold token_ok. intros H (H1 & H2 & H3 & H4). repeat split; auto; lia. Qed.

Lemma strongly_sorted_snoc (ls : list Lexeme.t) (l : Lexeme.t) :
  StronglySorted offset_lt ls -> Forall (fun x => offset_lt x l) ls ->
  StronglySorted offset_lt (ls ++ [l]).
Proof.
  induction 1 as [|x ls Hs IH Hx]; intros Hl; cbn [app].
  - constructor; constructor.
  - inversion Hl as [|? ? Hxl Hls]; subst.
    constructor; [apply IH; exact Hls|].
    apply Forall_app. split; [exact Hx|constructor; [exact Hxl|constructor]].
Qed.

Lemma well_formed_init (s : str) : well_formed (init s).
Proof.
  unfold well_formed; cbn. repeat split; try lia; constructor.
Qed.

Lemma well_formed_skip (a : LexicalAnalyzer.t) :
  well_formed a -> well_formed (skip_spaces a).
Proof.
  intros (Ho & Ht & Hs & Hsum).
  destruct (skip_spaces_post a) as (Es & El & Hge & Hle & _).
  unfold well_formed. rewrite Es, El.
  split; [lia|]. split.
  - apply (Forall_impl _ (fun l => token_ok_le _ _ l Hge) Ht).
  - split; [exact Hs|lia].
Qed.

Lemma well_formed_append (a b : LexicalAnalyzer.t) (l : Lexeme.t) :
  well_formed a -> next_lexeme a = (Some l, b) -> well_formed (append b l).
Proof.
  intros (Ho & Ht & Hs & Hsum) N.
  apply next_lexeme_token in N as (Es & El & Hb & Hl & Hle & Hlen & Hpos).
  unfold well_formed, append; cbn [source offset lexemes].
  rewrite Es, El. split; [exact Hle|]. split.
  - apply Forall_app. split.
    + apply (Forall_impl _ (fun x => token_ok_le (offset a) (offset b) x ltac:(lia)) Ht).
    + constructor; [|constructor]. unfold token_ok. repeat split; auto; lia.
  - split.
    + apply strongly_sorted_snoc; [exact Hs|].
      apply (Forall_impl _ (fun x (H : token_ok (offset a) x) =>
               ltac:(unfold offset_lt; destruct H as (_ & _ & _ & H); lia)
               : offset_lt x l) Ht).
    + rewrite map_app, list_sum_app. cbn [map list_sum fold_right]. lia.
Qed.

Lemma well_formed_runs (a : LexicalAnalyzer.t) (r : outcome * LexicalAnalyzer.t) :
  runs a r -> well_formed a -> well_formed (snd r).
Proof.
  induction 1 as [a B|a a' B L|a e a' B L|a a1 r B L H IH]; intros W; cbn [snd].
  - exact W.
  - apply loop_body_break in L as [-> _]. apply well_formed_skip; exact W.
  - apply loop_body_raise in L as (_ & _ & -> & _). apply well_formed_skip; exact W.
  - apply IH. apply loop_body_continue_inv in L as (_ & l & b & N & ->).
    apply (well_formed_append (skip_spaces a)); [apply well_formed_skip; exact W|exact N].
Qed.

Lemma runs_final (a : LexicalAnalyzer.t) (r : outcome * LexicalAnalyzer.t) :
  runs a r ->
  match fst r with
  | Returned => in_bounds (snd r) = false
  | Raised e => in_bounds (snd r) = true /\ pos e = offset (snd r) /\
                next_lexeme (snd r) = (None, snd r) /\
                skip_spaces (snd r) = snd r
  end.
Proof.
  induction 1 as [a B|a a' B L|a e a' B L|a a1 r B L H IH]; cbn [fst snd].
  - exact B.
  - apply loop_body_break in L as [-> L]. exact L.
  - apply loop_body_raise in L as (B2 & N & -> & ->).
    split; [exact B2|]. split; [reflexivity|]. split; [exact N|].
    apply skip_spaces_post.
  - exact IH.
Qed.

Lemma runs_appends (a : LexicalAnalyzer.t) (r : outcome * LexicalAnalyzer.t) :
  runs a r -> exists toks, lexemes (snd r) = lexemes a ++ toks.
Proof.
  induction 1 as [a B|a a' B L|a e a' B L|a a1 r B L H IH]; cbn [snd].
  - exists []. symmetry; apply app_nil_r.
  - apply loop_body_break in L as [-> _]. exists [].
    rewrite skip_spaces_lexemes. symmetry; apply app_nil_r.
  - apply loop_body_raise in L as (_ & _ & -> & _). exists [].
    rewrite skip_spaces_lexemes. symmetry; apply app_nil_r.
  - destruct IH as [toks IH].
    apply loop_body_continue in L as (_ & _ & l & Hl).
    exists (l :: toks). rewrite IH, Hl, <- app_assoc. reflexivity.
Qed.

(** ** Where a run ends *)

Lemma parse_final_state (s : str) (o : outcome) (a : LexicalAnalyzer.t) :
  parse (init s) = Some (o, a) ->
  source a = s /\
  match o with
  | Returned => offset a = length s
  | Raised e => pos e = offset a /\ offset a < length s
  end.
Proof.
  intros P. apply parse_runs in P.
  pose proof (runs_offset _ _ P) as [_ Hs]. cbn [snd source init] in Hs.
  pose proof (well_formed_runs _ _ P (well_formed_init s)) as (Hle & _).
  pose proof (runs_final _ _ P) as F. cbn [fst snd] in *.
  rewrite Hs in Hle. split; [exact Hs|].
  destruct o as [|e].
  - unfold in_bounds in F. apply Nat.ltb_ge in F. rewrite Hs in F. lia.
  - destruct F as (B & Hp & _). unfold in_bounds in B.
    apply Nat.ltb_lt in B. rewrite Hs in B. auto.
Qed.

(** X4: When [parse] returns, the cursor is exactly at the end of the source;
    when it raises, the cursor is inside the source, at the offset the
    exception carries. The source is never changed. *)
Theorem parse_final_cursor (s : str) (o : outcome) (a : LexicalAnalyzer.t) :
  parse (init s) = Some (o, a) ->
  source a = s /\
  match o with
  | Returned => offset a = length s
  | Raised e => pos e = offset a /\ offset a < length s
  end.
Proof. exact (parse_final_state s o a). Qed.

Lemma parse_final_cursor_witness :
  source (LexicalAnalyzer.mk (lit "Dim @") 4 [Lexeme.mk Dim (lit "Dim") 3 3])
    = lit "Dim @" /\
  (4 = 4 /\ 4 < length (lit "Dim @")).
Proof.
  apply (parse_final_cursor (lit "Dim @") (Raised (unknown_lexeme 4))
           (LexicalAnalyzer.mk (lit "Dim @") 4 [Lexeme.mk Dim (lit "Dim") 3 3])).
  vm_compute; reflexivity.
Defined.

(** ** The tokens of a run *)

(** X5: For every token that a run of [parse] leaves in [lexemes], whether the
    run returned or raised: its [length] is the length of its text and is
    at least 1, and its [offset] is at least its length and at most the
    length of the source. *)
Theorem tokens_fit_source (s : str) (o : outcome) (a : LexicalAnalyzer.t) :
  parse (init s) = Some (o, a) ->
  Forall (fun l =>
            Lexeme.length l = length (Lexeme.lexeme_value l) /\
            1 <= Lexeme.length l /\
            Lexeme.length l <= Lexeme.offset l /\
            Lexeme.offset l <= length s) (lexemes a).
Proof.
  intros P. apply parse_runs in P.
  pose proof (runs_offset _ _ P) as [_ Hs]. cbn [snd source init] in Hs.
  pose proof (well_formed_runs _ _ P (well_formed_init s)) as (Hle & Ht & _).
  cbn [snd] in *. rewrite Hs in Hle.
  eapply Forall_impl; [|exact Ht].
  intros l (H1 & H2 & H3 & H4).
  split; [exact H1|]. split; [lia|]. split; lia.
Qed.

Lemma tokens_fit_source_witness :
  Forall (fun l =>
            Lexeme.length l = length (Lexeme.lexeme_value l) /\
            1 <= Lexeme.length l /\
            Lexeme.length l <= Lexeme.offset l /\
            Lexeme.offset l <= length (lit "Dim x"))
    [Lexeme.mk Dim (lit "Dim") 3 3; Lexeme.mk Identifier (lit "x") 5 1].
Proof.
  apply (tokens_fit_source (lit "Dim x") Returned
           (LexicalAnalyzer.mk (lit "Dim x") 5
              [Lexeme.mk Dim (lit "Dim") 3 3; Lexeme.mk Identifier (lit "x") 5 1])).
  vm_compute; reflexivity.
Defined.

(** X6: In the [lexemes] of a run the recorded offsets increase strictly from
    one token to the next; the lengths of the tokens add up to at most the
    length of the source, and so does their number. *)
Theorem tokens_ordered_and_bounded (s : str) (o : outcome) (a : LexicalAnalyzer.t) :
  parse (init s) = Some (o, a) ->
  StronglySorted offset_lt (lexemes a) /\
  list_sum (map Lexeme.length (lexemes a)) <= length s /\
  length (lexemes a) <= length s.
Proof.
  intros P. apply parse_runs in P.
  pose proof (runs_offset _ _ P) as [_ Hs]. cbn [snd source init] in Hs.
  pose proof (well_formed_runs _ _ P (well_formed_init s)) as (Hle & Ht & Hsort & Hsum).
  cbn [snd] in *. rewrite Hs in Hle.
  split; [exact Hsort|]. split; [lia|].
  assert (Hcount : length (lexemes a) <= list_sum (map Lexeme.length (lexemes a))).
  { clear -Ht. unfold list_sum.
    induction Ht as [|l ls (_ & Hpos & _) _ IH];
      cbn [length map fold_right]; lia. }
  lia.
Qed.

Lemma tokens_ordered_and_bounded_witness :
  let toks := [Lexeme.mk Number (lit "0") 1 1; Lexeme.mk Number (lit "0") 2 1;
               Lexeme.mk Number (lit "7") 3 1] in
  StronglySorted offset_lt toks /\
  list_sum (map Lexeme.length toks) <= length (lit "007") /\
  length toks <= length (lit "007").
Proof.
  apply (tokens_ordered_and_bounded (lit "007") Returned
           (LexicalAnalyzer.mk (lit "007") 3
              [Lexeme.mk Number (lit "0") 1 1; Lexeme.mk Number (lit "0") 2 1;
               Lexeme.mk Number (lit "7") 3 1])).
  vm_compute; reflexivity.
Defined.

(** ** What is left when the exception is raised *)

Lemma none_of_ident_char (t : str) :
  none_of ident_start t -> none_of digit t -> none_of ident_char t.
Proof.
  unfold none_of. induction t as [|c t IH]; cbn [forallb]; [reflexivity|].
  intros H1 H2. apply andb_true_iff in H1 as [H1 H1'].
  apply andb_true_iff in H2 as [H2 H2'].
  rewrite (IH H1' H2'), ident_char_cases.
  apply negb_true_iff in H1, H2. rewrite H1, H2. reflexivity.
Qed.

Lemma raised_remainder (s : str) (e : UnknownLexemeException)
    (a : LexicalAnalyzer.t) :
  parse (init s) = Some (Raised e, a) ->
  pos e < length s /\
  is_space (char_at s (pos e)) = false /\
  none_of ident_char (skipn (pos e) s).
Proof.
  intros P.
  destruct (parse_final_state s _ a P) as (Hs & Hp & Hlt).
  apply parse_runs in P. apply runs_final in P. cbn [fst snd] in P.
  destruct P as (B & _ & N & Hskip).
  split; [lia|]. split.
  - destruct (skip_spaces_post a) as (_ & _ & _ & _ & _ & Hc & _).
    rewrite Hskip, Hs in Hc. rewrite Hp. apply Hc; exact B.
  - apply next_lexeme_none in N as (_ & _ & Hd).
    unfold dynamic_lexeme_definitions in Hd.
    pose proof (Forall_inv Hd) as H1.
    pose proof (Forall_inv (Forall_inv_tail Hd)) as H2.
    cbn [dynamic_representation DynamicLexemeDefinition_ compile] in H1, H2.
    rewrite Hs, <- Hp in H1, H2.
    apply (search_none identifier_pattern ident_start) in H1;
      [|reflexivity|exact identifier_match_start|lia].
    apply (search_none number_pattern digit) in H2;
      [|reflexivity|exact number_match_start|lia].
    apply none_of_ident_char; assumption.
Qed.

(** X7: When [parse] raises, the character at the offset of the exception is
    not whitespace, and from that offset to the end of the source there is
    no letter, no digit and no underscore: the part that [main.py] prints
    as unparsed has none of them. *)
Theorem unparsed_part_has_no_word (s : str) (e : UnknownLexemeException)
    (a : LexicalAnalyzer.t) :
  parse (init s) = Some (Raised e, a) ->
  pos e < length s /\
  is_space (char_at s (pos e)) = false /\
  none_of ident_char (skipn (pos e) s).
Proof. exact (raised_remainder s e a). Qed.

Lemma unparsed_part_has_no_word_witness :
  4 < length (lit "Dim @ +") /\
  is_space (char_at (lit "Dim @ +") 4) = false /\
  none_of ident_char (skipn 4 (lit "Dim @ +")).
Proof.
  apply (unparsed_part_has_no_word (lit "Dim @ +") (unknown_lexeme 4)
           (LexicalAnalyzer.mk (lit "Dim @ +") 4 [Lexeme.mk Dim (lit "Dim") 3 3])).
  vm_compute; reflexivity.
Defined.

(** ** Sources without a token *)

(** X8: [parse] returns with an empty [lexemes] exactly when the source is
    empty or made of characters of [space_chars] only. *)
Theorem no_token_iff_whitespace (s : str) :
  (exists a, parse (init s) = Some (Returned, a) /\ lexemes a = []) <->
  whitespace s.
Proof.
  split.
  - intros (a & P & Hl). apply parse_runs in P.
    inversion P as [a0 B|a0 a' B L|a0 e a' B L|a0 a1 r B L H]; subst.
    + unfold in_bounds in B; cbn [init offset source] in B.
      apply Nat.ltb_ge in B. destruct s; [reflexivity|cbn in B; lia].
    + apply loop_body_break in L as [-> L].
      destruct (skip_spaces_post (init s)) as (_ & _ & _ & _ & Hall & _).
      unfold in_bounds in L. apply Nat.ltb_ge in L.
      rewrite skip_spaces_source in L. cbn [init offset source] in *.
      unfold slice in Hall. rewrite Nat.sub_0_r in Hall. cbn [skipn] in Hall.
      rewrite firstn_all2 in Hall by exact L. exact Hall.
    + apply loop_body_continue in L as (_ & _ & l & Hl1).
      apply runs_appends in H as [toks H]. cbn [snd] in H.
      rewrite Hl1 in H. cbn [init lexemes app] in H.
      rewrite Hl in H. discriminate.
  - intros W.
    destruct (runs_layout [] [] s [] W I) as (a & R & Hm).
    cbn [layout app length map] in R, Hm. rewrite app_nil_r in R.
    exists a. split; [apply parse_runs; exact R|].
    destruct (lexemes a); [reflexivity|discriminate].
Qed.

(** ** Calling [parse] again *)

(** X9: A second call of [parse] on the analyzer that a first call has left
    ends as the first one did and changes nothing: after a return it
    returns at once, after an exception it raises the same exception, and
    no token is added. *)
Theorem parse_again (a a' : LexicalAnalyzer.t) (o : outcome) :
  parse a = Some (o, a') -> parse a' = Some (o, a').
Proof.
  intros P. apply parse_runs in P. apply parse_runs.
  pose proof (runs_final _ _ P) as F. cbn [fst snd] in F.
  destruct o as [|e].
  - apply runs_out; exact F.
  - destruct F as (B & Hp & N & Hskip).
    apply runs_raise.
    + destruct (skip_spaces_post a') as (_ & _ & Hge & _).
      rewrite Hskip in Hge. unfold in_bounds in *.
      apply Nat.ltb_lt. apply Nat.ltb_lt in B. exact B.
    + apply loop_body_raise. rewrite Hskip.
      split; [exact B|]. split; [exact N|]. split; [reflexivity|].
      destruct e as [p]. cbn [pos] in Hp. rewrite Hp. reflexivity.
Qed.

Lemma parse_again_witness :
  let a := LexicalAnalyzer.mk (lit "Dim @") 4 [Lexeme.mk Dim (lit "Dim") 3 3] in
  parse a = Some (Raised (unknown_lexeme 4), a).
Proof.
  apply (parse_again (init (lit "Dim @"))).
  vm_compute; reflexivity.
Defined.

(** ** Kinds that are never produced *)

Lemma find_app_split {A : Type} (f : A -> bool) (l1 l2 : list A) :
  List.find f (l1 ++ l2) =
  match List.find f l1 with
  | Some x => Some x
  | None => List.find f l2
  end.
Proof.
  induction l1 as [|x l1 IH]; cbn [app List.find]; [reflexivity|].
  destruct (f x); [reflexivity|exact IH].
Qed.

Lemma starts_with_prefix (x y s : str) :
  starts_with (x ++ y) s = true -> starts_with x s = true.
Proof.
  revert s; induction x as [|c x IH]; intros s; cbn [app starts_with]; [reflexivity|].
  destruct s as [|c' s]; [discriminate|].
  intros H. apply andb_true_iff in H as [H1 H2].
  rewrite H1, (IH _ H2). reflexivity.
Qed.

(** Where a literal matches, a definition without the keyword flag whose
    literal is a prefix of it matches as well. *)
Lemma prefix_operator_matches (t1 t2 : LexemeType) (more : str)
    (a : LexicalAnalyzer.t) :
  value t2 = value t1 ++ more ->
  static_match (StaticLexemeDefinition_ t2 false) a = true ->
  static_match (StaticLexemeDefinition_ t1 false) a = true.
Proof.
  intros Hv M. pose proof (static_match_fits _ _ M) as Hfit.
  assert (Hoff : offset a <= length (source a)) by lia.
  rewrite static_match_suffix in M |- * by exact Hoff.
  unfold suffix_match in *.
  cbn [static_representation is_keyword StaticLexemeDefinition_ andb negb] in *.
  rewrite andb_true_r in *. rewrite Hv in M.
  apply (starts_with_prefix _ _ _ M).
Qed.

Lemma process_static_kind (a b : LexicalAnalyzer.t) (l : Lexeme.t) :
  process_static_lexeme a = (Some l, b) ->
  unreachable_kind (Lexeme.lexeme_type l) = false.
Proof.
  unfold process_static_lexeme. rewrite static_loop_find.
  rewrite <- (firstn_skipn 21 static_lexeme_definitions), find_app_split.
  destruct (List.find _ (firstn 21 _)) as [d|] eqn:F1.
  - intros H. assert (l = static_lexeme d a) as -> by congruence.
    apply find_some in F1 as [Hin _].
    cbv [firstn static_lexeme_definitions] in Hin. cbn [In] in Hin.
    repeat (destruct Hin as [<-|Hin]; [reflexivity|]). contradiction.
  - destruct (List.find _ (skipn 21 _)) as [d|] eqn:F2; [|discriminate].
    intros H. assert (l = static_lexeme d a) as -> by congruence.
    apply find_some in F2 as [Hin Hm].
    assert (HAnd : static_match (StaticLexemeDefinition_ And false) a = false).
    { apply (find_none _ _ F1). cbv [firstn static_lexeme_definitions].
      cbn [In]. tauto. }
    assert (HOr : static_match (StaticLexemeDefinition_ Or false) a = false).
    { apply (find_none _ _ F1). cbv [firstn static_lexeme_definitions].
      cbn [In]. tauto. }
    cbv [skipn static_lexeme_definitions] in Hin. cbn [In] in Hin.
    destruct Hin as [<-|Hin]; [reflexivity|].
    destruct Hin as [<-|Hin].
    { apply (prefix_operator_matches And AndAlso (lit "Also")) in Hm;
        [congruence|reflexivity]. }
    destruct Hin as [<-|Hin].
    { apply (prefix_operator_matches Or OrElse (lit "Else")) in Hm;
        [congruence|reflexivity]. }
    repeat (destruct Hin as [<-|Hin]; [reflexivity|]). contradiction.
Qed.

Lemma process_dynamic_kind (a b : LexicalAnalyzer.t) (l : Lexeme.t) :
  process_dynamic_lexeme a = (Some l, b) ->
  Lexeme.lexeme_type l = Identifier \/ Lexeme.lexeme_type l = Number.
Proof.
  rewrite process_dynamic_cases.
  destruct (search identifier_pattern _ _) as [span|].
  - intros H. left. injection H as <- _. reflexivity.
  - destruct (search number_pattern _ _) as [span|]; [|discriminate].
    intros H. right. injection H as <- _. reflexivity.
Qed.

(** A property of every token that [next_lexeme] returns holds of all the
    tokens of a run. *)
Lemma runs_tokens (P : Lexeme.t -> Prop) :
  (forall a l b, next_lexeme a = (Some l, b) -> P l) ->
  forall a r, runs a r -> Forall P (lexemes a) -> Forall P (lexemes (snd r)).
Proof.
  intros HP a r R.
  induction R as [a B|a a' B L|a e a' B L|a a1 r B L H IH]; intros F; cbn [snd].
  - exact F.
  - apply loop_body_break in L as [-> _]. exact F.
  - apply loop_body_raise in L as (_ & _ & -> & _). exact F.
  - apply IH. apply loop_body_continue_inv in L as (_ & l & b & N & ->).
    cbn [append lexemes]. apply Forall_app. split.
    + apply next_lexeme_some in N as (_ & _ & -> & _). exact F.
    + constructor; [exact (HP _ _ _ N)|constructor].
Qed.

(** X10: No run of [parse] produces a token of kind [Sub], [Next], [AndAlso] or
    [OrElse], whatever the source. *)
Theorem kinds_never_produced (s : str) (o : outcome) (a : LexicalAnalyzer.t) :
  parse (init s) = Some (o, a) ->
  Forall (fun l => unreachable_kind (Lexeme.lexeme_type l) = false) (lexemes a).
Proof.
  intros P. apply parse_runs in P.
  apply (runs_tokens _) with (a := init s) (r := (o, a)); [|exact P|constructor].
  intros a0 l b. unfold next_lexeme.
  destruct (process_static_lexeme a0) as [[l1|] a2] eqn:S.
  - intros H. assert (l1 = l) as -> by congruence.
    apply (process_static_kind _ _ _ S).
  - intros H. apply process_dynamic_kind in H as [-> | ->]; reflexivity.
Qed.

Lemma kinds_never_produced_witness :
  Forall (fun l => unreachable_kind (Lexeme.lexeme_type l) = false)
    [Lexeme.mk And (lit "And") 3 3; Lexeme.mk Identifier (lit "Also") 7 4].
Proof.
  apply (kinds_never_produced (lit "AndAlso") Returned
           (LexicalAnalyzer.mk (lit "AndAlso") 7
              [Lexeme.mk And (lit "And") 3 3; Lexeme.mk Identifier (lit "Also") 7 4])).
  vm_compute; reflexivity.
Defined.

(** ** A literal at the cursor *)

Lemma find_cons_miss {A : Type} (f : A -> bool) (x : A) (l : list A) (r : option A) :
  f x = false -> List.find f l = r -> List.find f (x :: l) = r.
Proof. intros H1 H2. cbn [List.find]. rewrite H1. exact H2. Qed.

Lemma find_cons_hit {A : Type} (f : A -> bool) (x : A) (l : list A) :
  f x = true -> List.find f (x :: l) = Some x.
Proof. intros H. cbn [List.find]. rewrite H. reflexivity. Qed.

Lemma suffix_match_own (d : StaticLexemeDefinition) (tail : str) :
  (is_keyword d = true -> stops word_char tail) ->
  suffix_match d (static_representation d ++ tail) = true.
Proof.
  intros H. unfold suffix_match.
  rewrite starts_with_app, skipn_length_app. cbn [andb].
  destruct (is_keyword d); [|reflexivity].
  specialize (H eq_refl). destruct tail as [|c t]; [reflexivity|].
  cbn [stops] in H. unfold word_char in H. rewrite H. reflexivity.
Qed.

Lemma first_match_at_literal (d : StaticLexemeDefinition) (tail : str) :
  In d static_lexeme_definitions -> shadowed (static_type d) = false ->
  (is_keyword d = true -> stops word_char tail) ->
  List.find (fun d' => suffix_match d' (static_representation d ++ tail))
            static_lexeme_definitions = Some d.
Proof.
  intros Hin Hs Hk.
  unfold static_lexeme_definitions in Hin; cbn [In] in Hin.
  unfold static_lexeme_definitions.
  repeat (destruct Hin as [<-|Hin]; [try discriminate Hs;
    repeat (apply find_cons_miss; [vm_compute; reflexivity|]);
    apply find_cons_hit; apply suffix_match_own; exact Hk|]).
  contradiction.
Qed.

(** X11: When the text at the cursor begins with the literal of a definition of
    the table other than [AndAlso] and [OrElse], [process_static_lexeme]
    returns the token of that definition and advances the cursor by the
    length of the literal: for an operator or a punctuation mark whatever
    comes after the literal, [Mod], [Not], [And], [Or] and [Xor] included;
    for a keyword when the literal is followed by the end of the source or
    by a character that is neither alphanumeric nor an underscore. *)
Theorem literal_at_cursor (a : LexicalAnalyzer.t) (d : StaticLexemeDefinition)
    (tail : str) :
  skipn (offset a) (source a) = static_representation d ++ tail ->
  In d static_lexeme_definitions -> shadowed (static_type d) = false ->
  (is_keyword d = true -> stops word_char tail) ->
  process_static_lexeme a =
    (Some (Lexeme.mk (static_type d) (static_representation d)
             (offset a + length (static_representation d))
             (length (static_representation d))),
     set_offset a (offset a + length (static_representation d))).
Proof.
  intros Hsuf Hin Hs Hk.
  assert (Hoff : offset a <= length (source a)).
  { destruct (Nat.le_gt_cases (offset a) (length (source a))) as [H|H]; [exact H|].
    rewrite skipn_all2 in Hsuf by lia.
    pose proof static_representation_nonempty as C.
    rewrite Forall_forall in C. specialize (C d Hin).
    destruct (static_representation d); [cbn in C; lia|discriminate]. }
  unfold process_static_lexeme. rewrite static_loop_find.
  rewrite (find_ext_eq _ (fun d' => suffix_match d' (static_representation d ++ tail))).
  - rewrite (first_match_at_literal d tail Hin Hs Hk). reflexivity.
  - intros d'. rewrite (static_match_suffix d' a Hoff), Hsuf. reflexivity.
Qed.

Lemma literal_at_cursor_witness :
  process_static_lexeme (LexicalAnalyzer.mk (lit "x Modulo") 2 []) =
    (Some (Lexeme.mk Mod (lit "Mod") 5 3),
     LexicalAnalyzer.mk (lit "x Modulo") 5 []) /\
  process_static_lexeme (LexicalAnalyzer.mk (lit "Dim(") 0 []) =
    (Some (Lexeme.mk Dim (lit "Dim") 3 3),
     LexicalAnalyzer.mk (lit "Dim(") 3 []).
Proof.
  split.
  - apply (literal_at_cursor (LexicalAnalyzer.mk (lit "x Modulo") 2 [])
             (StaticLexemeDefinition_ Mod false) (lit "ulo")).
    + reflexivity.
    + vm_compute; tauto.
    + reflexivity.
    + discriminate.
  - apply (literal_at_cursor (LexicalAnalyzer.mk (lit "Dim(") 0 [])
             (StaticLexemeDefinition_ Dim true) (lit "(")).
    + reflexivity.
    + vm_compute; tauto.
    + reflexivity.
    + intros _. reflexivity.
Defined.

(** ** The text of a token goes with its kind *)

Lemma static_type_representation :
  Forall (fun d => static_representation d = value (static_type d) /\
                   static_type d <> Identifier /\ static_type d <> Number)
         static_lexeme_definitions.
Proof. repeat constructor; discriminate. Qed.

Lemma forallb_digit_ident_char (body : str) :
  forallb digit body = true -> forallb ident_char body = true.
Proof.
  induction body as [|c body IH]; cbn [forallb]; [reflexivity|].
  intros H. apply andb_true_iff in H as [H1 H2].
  rewrite (digit_ident_char _ H1), (IH H2). reflexivity.
Qed.

Lemma next_lexeme_text (a b : LexicalAnalyzer.t) (l : Lexeme.t) :
  next_lexeme a = (Some l, b) -> text_of_kind l.
Proof.
  unfold next_lexeme.
  destruct (process_static_lexeme a) as [[l1|] a2] eqn:S.
  - intros H. assert (l1 = l) as -> by congruence.
    apply process_static_some in S as (d & Hin & _ & -> & _).
    pose proof static_type_representation as C.
    rewrite Forall_forall in C. destruct (C d Hin) as (Hv & Hi & Hn).
    unfold text_of_kind. cbn [static_lexeme Lexeme.lexeme_type Lexeme.lexeme_value].
    destruct (static_type d); try exact Hv; congruence.
  - apply process_static_none in S as ->. intros H.
    destruct (process_dynamic_kind _ _ _ H) as [T|T]; unfold text_of_kind; rewrite T.
    + apply dynamic_identifier_shape in H
        as (junk & x & body & rest & _ & _ & Hx & Hb & _ & -> & _); [|exact T].
      cbn [is_identifier]. rewrite Hx, Hb. reflexivity.
    + apply dynamic_number_shape in H
        as (_ & junk & x & body & rest & _ & _ & Hx & -> & _); [|exact T].
      cbn [is_number]. destruct Hx as [[-> ->]|(Hx & Hb & _)].
      * reflexivity.
      * rewrite Hx, Hb. apply orb_true_r.
Qed.

Lemma lexemes_text_of_kind (s : str) (o : outcome) (a : LexicalAnalyzer.t) :
  parse (init s) = Some (o, a) -> Forall text_of_kind (lexemes a).
Proof.
  intros P. apply parse_runs in P.
  apply (runs_tokens text_of_kind (fun a0 l b => next_lexeme_text a0 b l)
           (init s) (o, a) P).
  constructor.
Qed.

(** X12: In the [lexemes] of every run, the text of a token of kind
    [Identifier] is a letter or underscore followed by letters, digits
    and underscores; the text of a token of kind [Number] is 0 or a run of
    digits that does not begin with 0; the text of any other token is the
    literal of its kind. *)
Theorem token_text_matches_kind (s : str) (o : outcome) (a : LexicalAnalyzer.t) :
  parse (init s) = Some (o, a) -> Forall text_of_kind (lexemes a).
Proof. exact (lexemes_text_of_kind s o a). Qed.

Lemma token_text_matches_kind_witness :
  Forall text_of_kind
    [Lexeme.mk Dim (lit "Dim") 3 3; Lexeme.mk Identifier (lit "x1") 6 2;
     Lexeme.mk Assign (lit "=") 8 1; Lexeme.mk Number (lit "10") 11 2].
Proof.
  apply (token_text_matches_kind (lit "Dim x1 = 10") Returned
           (LexicalAnalyzer.mk (lit "Dim x1 = 10") 11
              [Lexeme.mk Dim (lit "Dim") 3 3; Lexeme.mk Identifier (lit "x1") 6 2;
               Lexeme.mk Assign (lit "=") 8 1; Lexeme.mk Number (lit "10") 11 2])).
  vm_compute; reflexivity.
Defined.

(** ** The driver *)

(** X14: [start_lexical_analyzer] ends for every source. Either it makes
    no call of [print], or it makes two: the first with the message that
    holds the offset of the exception, which is inside the source, the
    second with the part of the source from that offset on, which begins
    with a character that is not whitespace and has no letter, digit or
    underscore. That part is printed as it is, line breaks included. *)
Theorem driver_prints (source : str) :
  exists printed written,
    start_lexical_analyzer source = Some (printed, written) /\
    (printed = [] \/
     exists p, p < length source /\
       printed = [lit "Unknown lexeme at " ++ decimal p;
                  lit "unparsed part: " ++ skipn p source] /\
       is_space (char_at source p) = false /\
       none_of ident_char (skipn p source)).
Proof.
  unfold start_lexical_analyzer.
  destruct (parse_loop_total (length (source)) (init source)) as [[o a] P];
    [cbn; lia|].
  change (parse (init source) = Some (o, a)) in P. rewrite P.
  destruct o as [|e].
  - eexists _, _. split; [reflexivity|]. left; reflexivity.
  - eexists _, _. split; [reflexivity|]. right.
    destruct (raised_remainder source e a P) as (H1 & H2 & H3).
    exists (pos e). repeat split; assumption.
Qed.

Lemma plain_repr_char (c : ascii) : plain c = true -> repr_char (chr 39) c = [c].
Proof. destruct c as [[] [] [] [] [] [] [] []]; intros H; try discriminate H; reflexivity. Qed.

Lemma plain_not_quote (c : ascii) : plain c = true -> Ascii.eqb (chr 39) c = false.
Proof. destruct c as [[] [] [] [] [] [] [] []]; intros H; try discriminate H; reflexivity. Qed.

Lemma ident_char_plain (c : ascii) : ident_char c = true -> plain c = true.
Proof. destruct c as [[] [] [] [] [] [] [] []]; intros H; try discriminate H; reflexivity. Qed.

Lemma nonzero_digit_digit (c : ascii) : nonzero_digit c = true -> digit c = true.
Proof. destruct c as [[] [] [] [] [] [] [] []]; intros H; try discriminate H; reflexivity. Qed.

Lemma repr_plain (t : str) :
  forallb plain t = true -> repr t = chr 39 :: t ++ [chr 39].
Proof.
  intros H. unfold repr.
  assert (Hq : existsb (Ascii.eqb (chr 39)) t = false).
  { induction t as [|c t IH]; cbn [existsb forallb] in *; [reflexivity|].
    apply andb_true_iff in H as [H1 H2].
    rewrite (plain_not_quote _ H1), (IH H2). reflexivity. }
  rewrite Hq. cbn [andb]. f_equal. f_equal.
  induction t as [|c t IH]; cbn [flat_map forallb] in *; [reflexivity|].
  apply andb_true_iff in H as [H1 H2].
  cbn [existsb] in Hq. apply orb_false_iff in Hq as [_ Hq].
  rewrite (plain_repr_char _ H1), (IH H2 Hq). reflexivity.
Qed.

Lemma quoted_plain (t : str) :
  forallb plain t = true -> quoted t = chr 39 :: t ++ [chr 39].
Proof.
  intros H. unfold quoted.
  destruct (str_eqb t [chr 92]) eqn:E; [|reflexivity].
  apply str_eqb_eq in E. subst t. discriminate H.
Qed.

Lemma forallb_ident_char_plain (t : str) :
  forallb ident_char t = true -> forallb plain t = true.
Proof.
  induction t as [|c t IH]; cbn [forallb]; [reflexivity|].
  intros H. apply andb_true_iff in H as [H1 H2].
  rewrite (ident_char_plain _ H1), (IH H2). reflexivity.
Qed.

Lemma repr_token_text (l : Lexeme.t) :
  text_of_kind l -> repr (lexeme_str l) = quoted (lexeme_str l).
Proof.
  unfold text_of_kind, lexeme_str.
  destruct (Lexeme.lexeme_type l) eqn:T;
    try (intros ->; vm_compute; reflexivity).
  - intros H. destruct (Lexeme.lexeme_value l) as [|x body]; [discriminate|].
    cbn [is_identifier] in H. apply andb_true_iff in H as [Hx Hb].
    assert (Hp : forallb plain (x :: body) = true).
    { apply forallb_ident_char_plain. cbn [forallb].
      rewrite (ident_start_ident_char _ Hx), Hb. reflexivity. }
    rewrite (repr_plain _ Hp), (quoted_plain _ Hp). reflexivity.
  - intros H. destruct (Lexeme.lexeme_value l) as [|x body]; [discriminate|].
    cbn [is_number] in H.
    assert (Hp : forallb plain (x :: body) = true).
    { apply forallb_ident_char_plain, forallb_digit_ident_char. cbn [forallb].
      apply orb_true_iff in H as [H|H]; apply andb_true_iff in H as [Hx Hb].
      - destruct body; [|discriminate]. apply Ascii.eqb_eq in Hx. subst x.
        reflexivity.
      - rewrite (nonzero_digit_digit _ Hx), Hb. reflexivity. }
    rewrite (repr_plain _ Hp), (quoted_plain _ Hp). reflexivity.
Qed.

(** X15: What [start_lexical_analyzer] writes is the list of the texts of the
    tokens that [parse] has left in [lexemes], after a return as after an
    exception. Each text is written between single quotes as it is, except
    the backslash, which is written twice: no token text needs another
    quote or another escape. *)
Theorem driver_writes_token_texts (source : str) (printed : list str) (written : str) :
  start_lexical_analyzer source = Some (printed, written) ->
  exists o a,
    parse (init source) = Some (o, a) /\
    written =
      chr 91 :: join [chr 44; chr 32]
                  (map quoted (map Lexeme.lexeme_value (lexemes a))) ++ [chr 93].
Proof.
  unfold start_lexical_analyzer.
  destruct (parse (init source)) as [[o a]|] eqn:P; [|discriminate].
  intros H. exists o, a. split; [reflexivity|].
  assert (Hw : written = str_of_list (map lexeme_str (lexemes a)))
    by (destruct o; congruence).
  rewrite Hw. unfold str_of_list.
  pose proof (lexemes_text_of_kind source o a P) as F.
  assert (E : map repr (map lexeme_str (lexemes a)) =
              map quoted (map Lexeme.lexeme_value (lexemes a))).
  { revert F. generalize (lexemes a) as ls.
    induction 1 as [|l ls Hl _ IH]; cbn [map]; [reflexivity|].
    rewrite (repr_token_text l Hl), IH. reflexivity. }
  rewrite E. reflexivity.
Qed.

Lemma driver_writes_token_texts_witness :
  exists o a,
    parse (init (lit "Dim x @")) = Some (o, a) /\
    lit "['Dim', 'x']" =
      chr 91 :: join [chr 44; chr 32]
                  (map quoted (map Lexeme.lexeme_value (lexemes a))) ++ [chr 93].
Proof.
  apply (driver_writes_token_texts (lit "Dim x @")
           [lit "Unknown lexeme at 6"; lit "unparsed part: @"]
           (lit "['Dim', 'x']")).
  vm_compute; reflexivity.
Defined.

(** ** Tokens are parts of the source *)

Lemma static_match_slice (d : StaticLexemeDefinition) (a : LexicalAnalyzer.t) :
  static_match d a = true ->
  slice (source a) (offset a) (offset a + length (static_representation d))
  = static_representation d.
Proof.
  intros M. pose proof (static_match_fits _ _ M) as Hfit.
  rewrite static_match_suffix in M by lia.
  unfold suffix_match in M. apply andb_true_iff in M as [M _].
  apply starts_with_firstn in M. unfold slice.
  replace (offset a + length (static_representation d) - offset a)
    with (length (static_representation d)) by lia.
  exact M.
Qed.

Lemma next_lexeme_in_source (a b : LexicalAnalyzer.t) (l : Lexeme.t) :
  next_lexeme a = (Some l, b) ->
  exists start,
    cursor_before l = offset a /\ offset a <= start /\
    start + Lexeme.length l <= length (source a) /\
    text_at (source a) start l /\
    (is_dynamic_kind (Lexeme.lexeme_type l) = false -> start = offset a).
Proof.
  unfold next_lexeme, text_at, cursor_before.
  destruct (process_static_lexeme a) as [[l1|] a2] eqn:S.
  - intros H. assert (l1 = l) as -> by congruence.
    apply process_static_some in S as (d & Hin & Hm & -> & _).
    exists (offset a).
    cbn [static_lexeme Lexeme.offset Lexeme.length Lexeme.lexeme_value].
    pose proof (static_match_fits _ _ Hm).
    split; [lia|]. split; [lia|]. split; [lia|].
    split; [apply static_match_slice; exact Hm|reflexivity].
  - apply process_static_none in S as ->. intros H.
    pose proof (process_dynamic_kind _ _ _ H) as K.
    apply dynamic_loop_some in H as (d & [p q] & Hin & Hs & -> & _).
    pose proof dynamic_patterns_consume as C.
    rewrite Forall_forall in C. apply (search_span _ (C d Hin)) in Hs.
    exists p.
    cbn [dynamic_lexeme Lexeme.offset Lexeme.length Lexeme.lexeme_value
         Lexeme.lexeme_type fst snd] in *.
    split; [lia|]. split; [lia|]. split; [lia|]. split.
    + replace (p + (q - p)) with q by lia. reflexivity.
    + destruct K as [-> | ->]; discriminate.
Qed.

Lemma runs_tokens_of_source (s : str) (P : Lexeme.t -> Prop) :
  (forall a l b, source a = s -> next_lexeme a = (Some l, b) -> P l) ->
  forall a r, runs a r -> source a = s ->
  Forall P (lexemes a) -> Forall P (lexemes (snd r)).
Proof.
  intros HP a r R.
  induction R as [a B|a a' B L|a e a' B L|a a1 r B L H IH]; intros Hs F; cbn [snd].
  - exact F.
  - apply loop_body_break in L as [-> _]. exact F.
  - apply loop_body_raise in L as (_ & _ & -> & _). exact F.
  - pose proof (loop_body_continue _ _ L) as (_ & Hs1 & _).
    apply IH; [congruence|].
    apply loop_body_continue_inv in L as (_ & l & b & N & ->).
    cbn [append lexemes]. apply Forall_app. split.
    + apply next_lexeme_some in N as (_ & _ & -> & _). exact F.
    + constructor; [|constructor].
      apply (HP (skip_spaces a) l b); [rewrite skip_spaces_source; exact Hs|exact N].
Qed.

(** X13: The text of every token of a run is a part of the source. It lies at
    or after the place where the cursor was when the token was matched,
    which is the recorded offset less the length. For a token of a static
    kind it lies exactly there, so that it ends at the recorded offset;
    for an [Identifier] or [Number] token it may lie further on. *)
Theorem token_text_in_source (s : str) (o : outcome) (a : LexicalAnalyzer.t) :
  parse (init s) = Some (o, a) ->
  Forall (fun l =>
            exists start,
              cursor_before l <= start /\
              start + Lexeme.length l <= length s /\
              text_at s start l /\
              (is_dynamic_kind (Lexeme.lexeme_type l) = false ->
               start = cursor_before l)) (lexemes a).
Proof.
  intros P. apply parse_runs in P.
  apply (runs_tokens_of_source s _) with (a := init s) (r := (o, a));
    [|exact P|reflexivity|constructor].
  intros a0 l b Hs N.
  apply next_lexeme_in_source in N as (start & Hc & Hle & Hfit & Ht & Hk).
  rewrite Hs in *. exists start. rewrite Hc. auto.
Qed.

Lemma token_text_in_source_witness :
  Forall (fun l =>
            exists start,
              cursor_before l <= start /\
              start + Lexeme.length l <= length (lit "+ @ b") /\
              text_at (lit "+ @ b") start l /\
              (is_dynamic_kind (Lexeme.lexeme_type l) = false ->
               start = cursor_before l))
    [Lexeme.mk Plus (lit "+") 1 1; Lexeme.mk Identifier (lit "b") 3 1;
     Lexeme.mk Identifier (lit "b") 5 1].
Proof.
  apply (token_text_in_source (lit "+ @ b") Returned
           (LexicalAnalyzer.mk (lit "+ @ b") 5
              [Lexeme.mk Plus (lit "+") 1 1; Lexeme.mk Identifier (lit "b") 3 1;
               Lexeme.mk Identifier (lit "b") 5 1])).
  vm_compute; reflexivity.
Defined.

(** ** Clean texts are analyzed into their words *)

Lemma space_not_word_char (c : ascii) : is_space c = true -> word_char c = false.
Proof.
  intros H. apply is_space_cases in H as [->|[->|[->| ->]]]; reflexivity.
Qed.

Lemma space_not_ident_char (c : ascii) : is_space c = true -> ident_char c = false.
Proof.
  intros H. apply is_space_cases in H as [->|[->|[->| ->]]]; reflexivity.
Qed.

Lemma ident_char_not_space (c : ascii) : ident_char c = true -> is_space c = false.
Proof.
  intros H. destruct (is_space c) eqn:E; [|reflexivity].
  apply space_not_ident_char in E. congruence.
Qed.

Lemma literals_have_no_space :
  Forall (fun d => forallb (fun c => negb (is_space c)) (static_representation d) = true)
         static_lexeme_definitions.
Proof. repeat constructor. Qed.

Lemma literals_start_with_no_digit :
  Forall (fun d => match static_representation d with
                   | c :: _ => digit c = false
                   | [] => False
                   end) static_lexeme_definitions.
Proof. repeat constructor. Qed.

(** Whether a literal matches at a word does not depend on the whitespace,
    or the end of the text, that follows the word. *)
Lemma match_before_gap (rep : str) (kw : bool) :
  forallb (fun c => negb (is_space c)) rep = true ->
  forall w tail, at_gap tail ->
  starts_with rep (w ++ tail)
  && negb (kw && match skipn (length rep) (w ++ tail) with
                 | c :: _ => word_char c
                 | [] => false
                 end)
  = starts_with rep w
    && negb (kw && match skipn (length rep) w with
                   | c :: _ => word_char c
                   | [] => false
                   end).
Proof.
  induction rep as [|r rep IH]; intros Hrep w tail Hgap.
  - cbn [starts_with length skipn andb].
    destruct w as [|c w]; [|reflexivity]. cbn [app].
    destruct tail as [|c t]; [reflexivity|].
    cbn [at_gap] in Hgap. rewrite (space_not_word_char _ Hgap). reflexivity.
  - cbn [forallb] in Hrep. apply andb_true_iff in Hrep as [Hr Hrep].
    destruct w as [|c w].
    + cbn [app starts_with andb]. destruct tail as [|c t]; [reflexivity|].
      cbn [at_gap] in Hgap. cbn [starts_with].
      destruct (Ascii.eqb r c) eqn:E; [|reflexivity].
      apply Ascii.eqb_eq in E. subst c. rewrite Hgap in Hr. discriminate.
    + cbn [app starts_with length skipn].
      rewrite <- !andb_assoc. f_equal. apply IH; assumption.
Qed.

Lemma suffix_match_before_gap (d : StaticLexemeDefinition) (w tail : str) :
  In d static_lexeme_definitions -> at_gap tail ->
  suffix_match d (w ++ tail) = suffix_match d w.
Proof.
  intros Hin Hgap. unfold suffix_match, word_char.
  pose proof literals_have_no_space as C. rewrite Forall_forall in C.
  exact (match_before_gap _ (is_keyword d) (C d Hin) w tail Hgap).
Qed.

Lemma find_none_forallb {A : Type} (f : A -> bool) (l : list A) :
  forallb (fun x => negb (f x)) l = true -> List.find f l = None.
Proof.
  induction l as [|x l IH]; cbn [forallb List.find]; [reflexivity|].
  intros H. apply andb_true_iff in H as [H1 H2].
  apply negb_true_iff in H1. rewrite H1. exact (IH H2).
Qed.

Lemma forallb_ext_in {A : Type} (f g : A -> bool) (l : list A) :
  (forall x, In x l -> f x = g x) -> forallb f l = forallb g l.
Proof.
  induction l as [|x l IH]; intros H; cbn [forallb]; [reflexivity|].
  rewrite (H x (or_introl eq_refl)), IH; [reflexivity|].
  intros y Hy. apply H. right; exact Hy.
Qed.

(** At a word at the beginning of which no definition matches, the static
    matcher returns nothing. *)
Lemma process_static_free (a : LexicalAnalyzer.t) (w tail : str) :
  offset a <= length (source a) ->
  skipn (offset a) (source a) = w ++ tail ->
  static_free w = true -> at_gap tail ->
  process_static_lexeme a = (None, a).
Proof.
  intros Hoff Hsuf Hfree Hgap.
  unfold process_static_lexeme. rewrite static_loop_find.
  rewrite find_none_forallb; [reflexivity|].
  unfold static_free in Hfree. rewrite <- Hfree.
  apply forallb_ext_in. intros d Hin.
  rewrite (static_match_suffix d a Hoff), Hsuf.
  rewrite (suffix_match_before_gap d w tail Hin Hgap). reflexivity.
Qed.

Lemma number_static_free (w : str) : is_number w = true -> static_free w = true.
Proof.
  intros H. destruct w as [|x body]; [discriminate|].
  assert (Hx : digit x = true).
  { cbn [is_number] in H. rewrite digit_cases.
    apply orb_true_iff in H as [H|H]; apply andb_true_iff in H as [H _];
      rewrite H; [reflexivity|apply orb_true_r]. }
  unfold static_free. apply forallb_forall. intros d Hin.
  pose proof literals_start_with_no_digit as C. rewrite Forall_forall in C.
  specialize (C d Hin). unfold suffix_match.
  destruct (static_representation d) as [|r rep]; [contradiction|].
  cbn [starts_with].
  destruct (Ascii.eqb r x) eqn:E; [|reflexivity].
  apply Ascii.eqb_eq in E. subst r. congruence.
Qed.

Lemma drop_while_app (p : ascii -> bool) (body tail : str) :
  forallb p body = true -> stops p tail -> drop_while p (body ++ tail) = tail.
Proof.
  induction body as [|c body IH]; cbn [forallb app]; intros Hb Ht.
  - destruct tail as [|c t]; [reflexivity|]. cbn [drop_while stops] in *.
    rewrite Ht. reflexivity.
  - apply andb_true_iff in Hb as [Hc Hb]. cbn [drop_while]. rewrite Hc.
    exact (IH Hb Ht).
Qed.

Lemma gap_stops_ident_char (tail : str) : at_gap tail -> stops ident_char tail.
Proof.
  destruct tail as [|c t]; [trivial|]. cbn [at_gap stops].
  apply space_not_ident_char.
Qed.

Lemma gap_stops_digit (tail : str) : at_gap tail -> stops digit tail.
Proof.
  destruct tail as [|c t]; [trivial|]. cbn [at_gap stops]. intros H.
  destruct (digit c) eqn:E; [|reflexivity].
  apply digit_ident_char in E. apply space_not_ident_char in H. congruence.
Qed.

Lemma slice_at_cursor (src : str) (off : nat) (w tail : str) :
  skipn off src = w ++ tail -> slice src off (off + length w) = w.
Proof.
  intros H. unfold slice. replace (off + length w - off) with (length w) by lia.
  rewrite H. apply firstn_length_app.
Qed.

Lemma search_at_hit (r : regex) (w tail : str) (pos : nat) :
  match_here r (w ++ tail) Some = Some tail ->
  search_at r (w ++ tail) pos = Some (pos, pos + length w).
Proof.
  intros H. destruct (w ++ tail) as [|c t] eqn:E; cbn [search_at]; rewrite H.
  - assert (length w + length tail = 0) by (rewrite <- length_app, E; reflexivity).
    do 2 f_equal. cbn [length]. lia.
  - assert (length w + length tail = length (c :: t))
      by (rewrite <- length_app, E; reflexivity).
    do 2 f_equal. lia.
Qed.

(** At an identifier followed by whitespace or by the end of the text, the
    dynamic matcher returns it whole. *)
Lemma process_dynamic_name (a : LexicalAnalyzer.t) (w tail : str) :
  offset a <= length (source a) ->
  skipn (offset a) (source a) = w ++ tail ->
  is_identifier w = true -> at_gap tail ->
  process_dynamic_lexeme a =
    (Some (Lexeme.mk Identifier w (offset a + length w) (length w)),
     set_offset a (offset a + length w)).
Proof.
  intros Hoff Hsuf Hw Hgap. rewrite process_dynamic_cases.
  assert (S1 : search identifier_pattern (source a) (offset a)
               = Some (offset a, offset a + length w)).
  { unfold search. rewrite (proj2 (Nat.leb_le _ _) Hoff), Hsuf.
    apply search_at_hit. rewrite match_identifier.
    destruct w as [|x body]; [discriminate|].
    cbn [is_identifier] in Hw. apply andb_true_iff in Hw as [Hx Hb].
    cbn [app]. rewrite Hx.
    rewrite (drop_while_app _ _ _ Hb (gap_stops_ident_char _ Hgap)). reflexivity. }
  rewrite S1. cbn [fst snd].
  replace (offset a + length w - offset a) with (length w) by lia.
  rewrite (slice_at_cursor _ _ _ _ Hsuf). reflexivity.
Qed.

(** At a number followed by whitespace or by the end of the text, the
    dynamic matcher returns it whole, provided that no letter and no
    underscore is left in the source. *)
Lemma process_dynamic_numeral (a : LexicalAnalyzer.t) (w tail : str) :
  offset a <= length (source a) ->
  skipn (offset a) (source a) = w ++ tail ->
  is_number w = true -> at_gap tail -> none_of ident_start (w ++ tail) ->
  process_dynamic_lexeme a =
    (Some (Lexeme.mk Number w (offset a + length w) (length w)),
     set_offset a (offset a + length w)).
Proof.
  intros Hoff Hsuf Hw Hgap Hnone. rewrite process_dynamic_cases.
  assert (S1 : search identifier_pattern (source a) (offset a) = None).
  { apply (search_none identifier_pattern ident_start _ _
             eq_refl identifier_match_start Hoff).
    rewrite Hsuf. exact Hnone. }
  assert (S2 : search number_pattern (source a) (offset a)
               = Some (offset a, offset a + length w)).
  { unfold search. rewrite (proj2 (Nat.leb_le _ _) Hoff), Hsuf.
    apply search_at_hit. rewrite match_number.
    destruct w as [|x body]; [discriminate|].
    cbn [is_number] in Hw. cbn [app].
    destruct (Ascii.eqb x (ch "0")) eqn:E0.
    - cbn [andb orb] in Hw.
      destruct body as [|b body]; [reflexivity|].
      cbn [orb] in Hw. apply andb_true_iff in Hw as [Hx _].
      apply Ascii.eqb_eq in E0. subst x. discriminate Hx.
    - cbn [andb orb] in Hw. apply andb_true_iff in Hw as [Hx Hb].
      rewrite Hx.
      rewrite (drop_while_app _ _ _ Hb (gap_stops_digit _ Hgap)). reflexivity. }
  rewrite S1, S2. cbn [fst snd].
  replace (offset a + length w - offset a) with (length w) by lia.
  rewrite (slice_at_cursor _ _ _ _ Hsuf). reflexivity.
Qed.

Lemma none_of_app (p : ascii -> bool) (x y : str) :
  none_of p x -> none_of p y -> none_of p (x ++ y).
Proof.
  unfold none_of. intros Hx Hy. rewrite forallb_app, Hx, Hy. reflexivity.
Qed.

Lemma whitespace_no_ident_start (ws : str) : whitespace ws -> none_of ident_start ws.
Proof.
  unfold whitespace, none_of.
  induction ws as [|c ws IH]; cbn [forallb]; [reflexivity|].
  intros H. apply andb_true_iff in H as [Hc Hws]. rewrite (IH Hws).
  destruct (ident_start c) eqn:E; [|reflexivity].
  apply ident_start_ident_char, ident_char_not_space in E. congruence.
Qed.

Lemma digit_not_ident_start (c : ascii) : digit c = true -> ident_start c = false.
Proof. destruct c as [[] [] [] [] [] [] [] []]; intros H; try discriminate H; reflexivity. Qed.

Lemma number_no_ident_start (w : str) : is_number w = true -> none_of ident_start w.
Proof.
  intros H. destruct w as [|x body]; [discriminate|].
  cbn [is_number] in H.
  assert (Hall : forallb digit (x :: body) = true).
  { cbn [forallb]. rewrite digit_cases.
    apply orb_true_iff in H as [H|H]; apply andb_true_iff in H as [Hx Hb].
    - rewrite Hx. destruct body; [reflexivity|discriminate].
    - rewrite Hx, Hb, orb_true_r. reflexivity. }
  clear H. unfold none_of. revert Hall. generalize (x :: body). intros u.
  induction u as [|c u IH]; cbn [forallb]; [reflexivity|].
  intros H. apply andb_true_iff in H as [Hc Hu].
  rewrite (digit_not_ident_start _ Hc), (IH Hu). reflexivity.
Qed.

Lemma whitespace_gap (sep rest : str) :
  whitespace sep -> (sep = [] -> rest = []) -> at_gap (sep ++ rest).
Proof.
  intros Hws Hlast. destruct sep as [|c sep].
  - rewrite (Hlast eq_refl). exact I.
  - unfold whitespace in Hws. cbn [forallb] in Hws.
    apply andb_true_iff in Hws as [Hc _]. exact Hc.
Qed.

Lemma word_head (w : word) :
  word_ok w -> match word_text w with
               | c :: _ => is_space c = false
               | [] => False
               end.
Proof.
  destruct w as [d|t|t]; cbn [word_ok word_text].
  - intros [Hin _]. pose proof literals_start_with_no_space as C.
    rewrite Forall_forall in C. exact (C d Hin).
  - intros [H _]. destruct t as [|x body]; [discriminate|].
    cbn [is_identifier] in H. apply andb_true_iff in H as [Hx _].
    apply ident_char_not_space, ident_start_ident_char, Hx.
  - intros H. destruct t as [|x body]; [discriminate|].
    apply ident_char_not_space, digit_ident_char.
    cbn [is_number] in H. rewrite digit_cases.
    apply orb_true_iff in H as [H|H]; apply andb_true_iff in H as [Hx _];
      rewrite Hx; [reflexivity|apply orb_true_r].
Qed.

(** At a word of a clean text the two matchers, tried in turn, return the
    token of the word and advance the cursor by its length. *)
Lemma word_step (a : LexicalAnalyzer.t) (w : word) (tail : str) :
  offset a <= length (source a) ->
  skipn (offset a) (source a) = word_text w ++ tail ->
  word_ok w -> at_gap tail ->
  match w with
  | Numeral _ => none_of ident_start tail
  | _ => True
  end ->
  next_lexeme a =
    (Some (Lexeme.mk (word_kind w) (word_text w)
             (offset a + length (word_text w)) (length (word_text w))),
     set_offset a (offset a + length (word_text w))).
Proof.
  intros Hoff Hsuf Hok Hgap Hnum. unfold next_lexeme.
  destruct w as [d|t|t]; cbn [word_ok word_text word_kind] in *.
  - destruct Hok as [Hin Hs].
    rewrite (process_static_own a d tail Hoff Hsuf Hin Hs); [reflexivity|].
    destruct tail as [|c t]; [left; reflexivity|].
    right. exists c, t. split; [reflexivity|exact Hgap].
  - destruct Hok as [Hid Hfree].
    rewrite (process_static_free a t tail Hoff Hsuf Hfree Hgap).
    apply (process_dynamic_name a t tail); assumption.
  - rewrite (process_static_free a t tail Hoff Hsuf (number_static_free t Hok) Hgap).
    apply (process_dynamic_numeral a t tail); try assumption.
    apply none_of_app; [apply number_no_ident_start; exact Hok|exact Hnum].
Qed.

Lemma runs_clean (items : list (word * str)) :
  forall (pre ws : str) (lex : list Lexeme.t),
  whitespace ws -> clean items ->
  exists a',
    runs (LexicalAnalyzer.mk (pre ++ ws ++ text_of items) (length pre) lex)
         (Returned, a') /\
    map lexeme_kind_text (lexemes a') =
      map lexeme_kind_text lex
      ++ map (fun i => (word_kind (fst i), word_text (fst i))) items.
Proof.
  induction items as [|[w sep] rest IH]; intros pre ws lex Hws Hclean.
  - destruct (runs_layout [] pre ws lex Hws I) as (a' & R & Hm).
    exists a'. split; [exact R|exact Hm].
  - destruct Hclean as (Hok & Hwsep & Hlast & Hnum & Hrest).
    cbn [text_of].
    set (t := word_text w) in *.
    set (src := pre ++ ws ++ t ++ sep ++ text_of rest).
    set (a := LexicalAnalyzer.mk src (length pre) lex).
    set (a1 := LexicalAnalyzer.mk src (length pre + length ws) lex).
    pose proof (word_head w Hok) as Hhead. fold t in Hhead.
    assert (Hne : 0 < length t) by (destruct t; [contradiction|cbn; lia]).
    assert (Hlen : length src =
              length pre + length ws + length t + length (sep ++ text_of rest)).
    { unfold src. rewrite !length_app. lia. }
    assert (B : in_bounds a = true).
    { unfold in_bounds, a; cbn [offset source]. apply Nat.ltb_lt. lia. }
    assert (Hskip : skip_spaces a = a1).
    { unfold a, a1. rewrite skip_spaces_mk. unfold src at 2.
      rewrite skipn_length_app, skip_spaces_from_app; [reflexivity|exact Hws|].
      destruct t as [|c t']; [contradiction|exact Hhead]. }
    assert (B1 : in_bounds a1 = true).
    { unfold in_bounds, a1; cbn [offset source]. apply Nat.ltb_lt. lia. }
    assert (Hsuf : skipn (offset a1) (source a1) = t ++ sep ++ text_of rest).
    { unfold a1; cbn [offset source]. unfold src.
      rewrite <- length_app, app_assoc. apply skipn_length_app. }
    assert (Hnext : next_lexeme a1 =
              (Some (Lexeme.mk (word_kind w) t (offset a1 + length t) (length t)),
               set_offset a1 (offset a1 + length t))).
    { apply (word_step a1 w (sep ++ text_of rest)).
      - unfold a1; cbn [offset source]. lia.
      - exact Hsuf.
      - exact Hok.
      - apply whitespace_gap; [exact Hwsep|].
        intros E. rewrite (Hlast E). reflexivity.
      - destruct w; try exact I.
        apply none_of_app; [apply whitespace_no_ident_start; exact Hwsep|exact Hnum]. }
    set (tok := Lexeme.mk (word_kind w) t (offset a1 + length t) (length t)) in *.
    destruct (IH (pre ++ ws ++ t) sep (lex ++ [tok]) Hwsep Hrest)
      as (a' & Hruns & Hmap).
    exists a'. split.
    + apply (runs_continue a (append (set_offset a1 (offset a1 + length t)) tok));
        [exact B| |].
      * rewrite loop_body_next, Hskip, B1, Hnext. reflexivity.
      * replace (append _ _) with
          (LexicalAnalyzer.mk ((pre ++ ws ++ t) ++ sep ++ text_of rest)
             (length (pre ++ ws ++ t)) (lex ++ [tok])); [exact Hruns|].
        unfold append, set_offset, a1, src; cbn [offset source lexemes].
        rewrite !length_app, <- !app_assoc. f_equal. lia.
    + rewrite Hmap, map_app, <- app_assoc. reflexivity.
Qed.

(** X17: A clean text is analyzed into its words: when the source is made of
    literals of the table other than [AndAlso] and [OrElse], of
    identifiers at the beginning of which no definition matches, and of
    numbers without a leading zero, with whitespace between them, and no
    letter or underscore comes anywhere after a number, then [parse]
    returns and the tokens are the words in order, each with its kind. *)
Theorem clean_text_tokens (ws0 : str) (items : list (word * str)) :
  whitespace ws0 -> clean items ->
  exists a,
    parse (init (ws0 ++ text_of items)) = Some (Returned, a) /\
    map lexeme_kind_text (lexemes a) =
      map (fun i => (word_kind (fst i), word_text (fst i))) items.
Proof.
  intros Hws Hclean.
  destruct (runs_clean items [] ws0 [] Hws Hclean) as (a & Hruns & Hmap).
  exists a. split; [|exact Hmap].
  apply parse_runs. exact Hruns.
Qed.

Lemma clean_text_tokens_witness :
  exists a,
    parse (init (lit "Dim count = 10")) = Some (Returned, a) /\
    map lexeme_kind_text (lexemes a) =
      [(Dim, lit "Dim"); (Identifier, lit "count"); (Assign, lit "=");
       (Number, lit "10")].
Proof.
  apply (clean_text_tokens []
           [(Literal (StaticLexemeDefinition_ Dim true), lit " ");
            (Name (lit "count"), lit " ");
            (Literal (StaticLexemeDefinition_ Assign false), lit " ");
            (Numeral (lit "10"), [])]).
  - reflexivity.
  - vm_compute. intuition discriminate.
Defined.

(** ** Running twice *)

Lemma skip_spaces_with_module (rest : str) (off : nat) :
  skip_spaces_with space_chars rest off = skip_spaces_from rest off.
Proof.
  revert off; induction rest as [|c rest IH]; intros off;
    cbn [skip_spaces_with skip_spaces_from]; [reflexivity|].
  fold (is_space c). destruct (is_space c); [apply IH|reflexivity].
Qed.

(** A pass of the loop reads the process and leaves it as it found it. *)
Lemma loop_body_run_frame (a : LexicalAnalyzer.t) (g : Process) :
  snd (loop_body_run a g) = g.
Proof.
  unfold loop_body_run, skip_spaces_run, process_static_lexeme_run,
    process_dynamic_lexeme_run, bind, lookup, ret.
  destruct (negb _); [reflexivity|].
  destruct (static_loop (static_table g) _) as [[l|] a2]; cbn [fst snd].
  - reflexivity.
  - destruct (dynamic_loop (dynamic_table g) a2) as [[l|] a3]; reflexivity.
Qed.

Lemma parse_loop_run_frame (fuel : nat) :
  forall a g, snd (parse_loop_run fuel a g) = g.
Proof.
  induction fuel as [|fuel IH]; intros a g; cbn [parse_loop_run].
  - destruct (in_bounds a); reflexivity.
  - destruct (in_bounds a); [|reflexivity].
    unfold bind. pose proof (loop_body_run_frame a g) as F.
    destruct (loop_body_run a g) as [i g1]. cbn [snd] in F. subst g1.
    destruct i as [a'|a'|e a']; [apply IH|reflexivity|reflexivity].
Qed.

Lemma skip_spaces_run_module (a : LexicalAnalyzer.t) :
  skip_spaces_run a module_state = (skip_spaces a, module_state).
Proof.
  unfold skip_spaces_run, bind, lookup, ret, skip_spaces.
  cbn [space_table module_state]. rewrite skip_spaces_with_module. reflexivity.
Qed.

Lemma process_static_lexeme_run_module (a : LexicalAnalyzer.t) :
  process_static_lexeme_run a module_state = (process_static_lexeme a, module_state).
Proof.
  unfold process_static_lexeme_run, process_static_lexeme, bind, lookup, ret.
  cbn [static_table module_state]. reflexivity.
Qed.

Lemma process_dynamic_lexeme_run_module (a : LexicalAnalyzer.t) :
  process_dynamic_lexeme_run a module_state = (process_dynamic_lexeme a, module_state).
Proof.
  unfold process_dynamic_lexeme_run, process_dynamic_lexeme, bind, lookup, ret.
  cbn [dynamic_table module_state]. reflexivity.
Qed.

(** In the process as the module leaves it, a pass is the pass of [parse]. *)
Lemma loop_body_run_module (a : LexicalAnalyzer.t) :
  loop_body_run a module_state = (loop_body a, module_state).
Proof.
  unfold loop_body_run, loop_body, bind.
  rewrite skip_spaces_run_module.
  destruct (negb (in_bounds (skip_spaces a))); [reflexivity|].
  rewrite process_static_lexeme_run_module.
  destruct (process_static_lexeme (skip_spaces a)) as [[l|] a2]; cbn [fst snd].
  - reflexivity.
  - rewrite process_dynamic_lexeme_run_module.
    destruct (process_dynamic_lexeme a2) as [[l|] a3]; reflexivity.
Qed.

Lemma parse_loop_run_module (fuel : nat) :
  forall a, parse_loop_run fuel a module_state = (parse_loop fuel a, module_state).
Proof.
  induction fuel as [|fuel IH]; intros a; cbn [parse_loop_run parse_loop].
  - destruct (in_bounds a); reflexivity.
  - destruct (in_bounds a); [|reflexivity].
    unfold bind. rewrite loop_body_run_module.
    destruct (loop_body a) as [a'|a'|e a']; [apply IH|reflexivity|reflexivity].
Qed.

(** [parse] on the analyzer that a call of [parse] has left. *)
Lemma parse_on_final_state (a a' : LexicalAnalyzer.t) (o : outcome) :
  parse a = Some (o, a') -> parse a' = Some (o, a').
Proof.
  intros P. apply parse_runs in P. apply parse_runs.
  pose proof (runs_final _ _ P) as F. cbn [fst snd] in F.
  destruct o as [|e].
  - apply runs_out; exact F.
  - destruct F as (B & Hp & N & Hskip).
    apply runs_raise; [exact B|].
    apply loop_body_raise. rewrite Hskip.
    split; [exact B|]. split; [exact N|]. split; [reflexivity|].
    destruct e as [p]. cbn [pos] in Hp. rewrite Hp. reflexivity.
Qed.

(** C9: a run of the analyzer, [LexicalAnalyzer(source).parse()], leaves
    the tables and [space_chars] of the process as it found them, whatever
    they hold; so a second run on the same source, started in the process
    that the first run has left, ends as the first did, with the same
    outcome (returned, or raised with the same offset) and the same tokens
    with their kinds, texts, offsets and lengths. In the process as the
    module leaves it every run ends, with the result of [parse]; and a
    second call of [parse] on the analyzer of the first run ends the same
    way again and leaves that analyzer, hence its tokens, as it was. *)
Theorem reruns_reproduce (s : str) :
  (forall g r g',
     analyze_run s g = (r, g') ->
     g' = g /\ analyze_run s g' = (r, g')) /\
  exists o a,
    analyze_run s module_state = (Some (o, a), module_state) /\
    parse (init s) = Some (o, a) /\
    parse_run a module_state = (Some (o, a), module_state).
Proof.
  split.
  - intros g r g' H.
    pose proof (parse_loop_run_frame (length (source (init s))) (init s) g) as F.
    unfold analyze_run, parse_run in *. rewrite H in F. cbn [snd] in F.
    subst g'. split; [reflexivity|exact H].
  - destruct (parse_loop_total (length (source (init s))) (init s)) as [[o a] P];
      [lia|].
    change (parse (init s) = Some (o, a)) in P.
    exists o, a. split; [|split].
    + unfold analyze_run, parse_run. rewrite parse_loop_run_module.
      fold (parse (init s)). rewrite P. reflexivity.
    + exact P.
    + unfold parse_run. rewrite parse_loop_run_module.
      fold (parse a). rewrite (parse_on_final_state _ _ _ P). reflexivity.
Qed.
